(** * University sports backend: query construction, storage contract and
      route handlers

    A shallow embedding of the Express/Prisma backend: the helper
    [buildQueryOptions] of [utils/queryUtils.ts], the relational schema of
    [prisma/schema.prisma], and the route handlers of the five resources
    (universities, sports, fixtures, results, users).

    Conventions of the embedding:
    - a JavaScript number is [JS.NaN] or an exact integer [JS.Int z]; the
      handlers only ever produce integers (results of [parseInt]); the
      rounding of magnitudes above 2^53 and the exponent notation of
      [toString] from 10^21 on are not modelled;
    - a string is a sequence of 8-bit code units;
    - the storage client, the uploader, the hash function, the JSON and date
      parsers and the socket server are collaborators outside the repository:
      the pure ones are fields of [Env], the storage client is modelled from
      the schema in [Module Prisma]. *)

From Stdlib Require Import ZArith Lia Bool List String Ascii.
From stdpp Require Import base option list gmap strings fin_maps.

Set Warnings "-register-all".

Local Open Scope string_scope.
Local Open Scope Z_scope.

(* ===================================================================== *)
(** * JavaScript values and coercions used by the code *)
(* ===================================================================== *)

Module JS.

(** A number: [NaN] or an integer. *)
Inductive number :=
| NaN
| Int (z : Z).

(** What [res.json], [io.emit] and the storage client exchange. *)
Inductive value :=
| VUndefined
| VNull
| VNum (n : number)
| VStr (s : string)
| VDate (t : option Z)          (* a Date object; [None] is Invalid Date *)
| VArr (l : list value)
| VObj (o : list (string * value)).

(** [a - b] and [a * b] on numbers: NaN is absorbing. *)
Definition sub (a b : number) : number :=
  match a, b with
  | Int x, Int y => Int (x - y)
  | _, _ => NaN
  end.

Definition mul (a b : number) : number :=
  match a, b with
  | Int x, Int y => Int (x * y)
  | _, _ => NaN
  end.

(** ToBoolean on numbers and strings. *)
Definition truthy_number (n : number) : bool :=
  match n with
  | NaN => false
  | Int z => negb (z =? 0)
  end.

Definition truthy_string (s : string) : bool :=
  match s with
  | EmptyString => false
  | String _ _ => true
  end.

Definition code (c : ascii) : Z := Z.of_N (N_of_ascii c).

(** StrWhiteSpaceChar restricted to 8-bit code units: TAB, LF, VT, FF, CR,
    SP and NBSP. *)
Definition is_white_space (c : ascii) : bool :=
  let n := code c in
  ((9 <=? n) && (n <=? 13)) || (n =? 32) || (n =? 160).

Fixpoint trim_start (s : string) : string :=
  match s with
  | String c s' => if is_white_space c then trim_start s' else s
  | EmptyString => EmptyString
  end.

(** The value of a code unit as a digit of the given radix. *)
Definition digit_value (radix : Z) (c : ascii) : option Z :=
  let n := code c in
  let d :=
    if (48 <=? n) && (n <=? 57) then n - 48
    else if (97 <=? n) && (n <=? 122) then n - 87
    else if (65 <=? n) && (n <=? 90) then n - 55
    else 36 in
  if d <? radix then Some d else None.

(** Steps 11 to 14 of parseInt: the longest prefix of radix-R digits and its
    mathematical value; [None] when the prefix is empty. *)
Fixpoint parse_digits (radix : Z) (s : string) (acc : option Z) : option Z :=
  match s with
  | String c s' =>
      match digit_value radix c with
      | Some d => parse_digits radix s' (Some (radix * default 0 acc + d))
      | None => acc
      end
  | EmptyString => acc
  end.

Definition starts_with (c : ascii) (s : string) : bool :=
  match s with
  | String d _ => Ascii.eqb c d
  | EmptyString => false
  end.

Definition tail (s : string) : string :=
  match s with
  | String _ r => r
  | EmptyString => EmptyString
  end.

(** [parseInt(s)] with the radix argument omitted (ECMA-262, 19.2.5): white
    space is skipped, a sign is read, a [0x] or [0X] prefix selects radix
    16, and the longest prefix of digits is the result. *)
Definition parseInt (s : string) : number :=
  let s1 := trim_start s in
  let sign := if starts_with "-" s1 then -1 else 1 in
  let s2 := if starts_with "-" s1 || starts_with "+" s1 then tail s1 else s1 in
  let hex := String.prefix "0x" s2 || String.prefix "0X" s2 in
  let radix := if hex then 16 else 10 in
  let s3 := if hex then tail (tail s2) else s2 in
  match parse_digits radix s3 None with
  | Some m => Int (sign * m)
  | None => NaN
  end.

Definition digit_char (d : Z) : ascii := ascii_of_N (Z.to_N (48 + d)).

(** The decimal digits of a natural number, most significant first; the fuel
    [Z.log2 n] covers every digit. *)
Fixpoint digits_acc (fuel : nat) (n : Z) (acc : string) : string :=
  let acc' := String (digit_char (n mod 10)) acc in
  match fuel with
  | O => acc'
  | S f => if n / 10 =? 0 then acc' else digits_acc f (n / 10) acc'
  end.

Definition decimal (n : Z) : string :=
  digits_acc (Z.to_nat (Z.log2 n)) n EmptyString.

(** [Number.prototype.toString()] on NaN and on integers. *)
Definition number_toString (n : number) : string :=
  match n with
  | NaN => "NaN"
  | Int z => if z <? 0 then String "-" (decimal (- z)) else decimal z
  end.

(** [obj[key] = v] on an object kept as its list of own properties in
    insertion order. *)
Fixpoint obj_set {A} (key : string) (v : A) (o : list (string * A)) : list (string * A) :=
  match o with
  | [] => [(key, v)]
  | (k, w) :: o' => if String.eqb k key then (k, v) :: o' else (k, w) :: obj_set key v o'
  end.

(** [obj[key] = v] with a key the caller chooses and a string [v]: the key
    [__proto__] reaches the prototype setter, which ignores a string. *)
Definition assign (key : string) (v : string) (o : list (string * string))
    : list (string * string) :=
  if String.eqb key "__proto__" then o else obj_set key v o.

(** [obj[key]], [None] for undefined. *)
Fixpoint obj_get {A} (key : string) (o : list (string * A)) : option A :=
  match o with
  | [] => None
  | (k, w) :: o' => if String.eqb k key then Some w else obj_get key o'
  end.

End JS.

(* ===================================================================== *)
(** * utils/queryUtils.ts *)
(* ===================================================================== *)

Module QueryUtils.
Import JS.

(** A [page] or [limit] property: declared [number] in the interface, a
    string when it comes from [req.query]. *)
Inductive num_param :=
| PNum (n : number)
| PStr (s : string).

Definition param_truthy (p : num_param) : bool :=
  match p with
  | PNum n => truthy_number n
  | PStr s => truthy_string s
  end.

Definition param_toString (p : num_param) : string :=
  match p with
  | PNum n => number_toString n
  | PStr s => s
  end.

Record QueryOptions := {
  page : option num_param;
  limit : option num_param;
  sortBy : option string;
  sortOrder : option string;
  search : option string;
  gender : option string;
  role : option string;
  sportId : option string;
  universityId : option string;
}.

(** The object [{}] that [req.query] is when the URL has no query string. *)
Definition no_options : QueryOptions :=
  {| page := None; limit := None; sortBy := None; sortOrder := None;
     search := None; gender := None; role := None; sportId := None;
     universityId := None |}.

(** The returned object [{ skip, take, orderBy, where }]. *)
Record QueryDescriptor := {
  skip : number;
  take : number;
  orderBy : list (string * string);
  where_ : list (string * value);
}.

(** [x ? parseInt(x.toString()) : dflt] *)
Definition param_number (p : option num_param) (dflt : Z) : number :=
  match p with
  | Some v => if param_truthy v then parseInt (param_toString v) else Int dflt
  | None => Int dflt
  end.

(** [x || dflt] on an optional string. *)
Definition or_default (o : option string) (dflt : string) : string :=
  match o with
  | Some s => if truthy_string s then s else dflt
  | None => dflt
  end.

(** [{ [field]: { contains: search, mode: 'insensitive' } }] *)
Definition contains_insensitive (s field : string) : value :=
  VObj [(field, VObj [("contains", VStr s); ("mode", VStr "insensitive")])].

(** [if (x) { where.key = f(x) }] *)
Definition set_if (x : option string) (key : string) (f : string -> value)
    (w : list (string * value)) : list (string * value) :=
  match x with
  | Some s => if truthy_string s then obj_set key (f s) w else w
  | None => w
  end.

Definition buildQueryOptions (options : QueryOptions) (searchFields : list string)
    : QueryDescriptor :=
  let page := param_number (page options) 1 in
  let limit := param_number (limit options) 10 in
  let skip := mul (sub page (Int 1)) limit in
  let orderBy :=
    match sortBy options with
    | Some f =>
        if truthy_string f then assign f (or_default (sortOrder options) "asc") []
        else []
    | None => []
    end in
  let w := [] in
  let w := set_if (search options) "OR"
             (fun s => VArr (map (contains_insensitive s) searchFields)) w in
  let w := set_if (gender options) "gender" VStr w in
  let w := set_if (role options) "role" VStr w in
  let w := set_if (sportId options) "sportId" VStr w in
  let w := set_if (universityId options) "sport"
             (fun u => VObj [("universityId", VStr u)]) w in
  {| skip := skip; take := limit; orderBy := orderBy; where_ := w |}.

End QueryUtils.

(* ===================================================================== *)
(** * prisma/schema.prisma *)
(* ===================================================================== *)

Module Schema.

Inductive Model := University | Sport | Fixture | Result | User.

#[global] Instance Model_eq_dec : EqDecision Model.
Proof. solve_decision. Defined.

Definition Role : list string := ["ADMIN"; "COACH"; "STUDENT"; "STAFF"].
Definition Gender : list string := ["MALE"; "FEMALE"; "OTHER"].
Definition GameStatus : list string :=
  ["NOT_STARTED"; "IN_PROGRESS"; "FINISHED"; "POSTPONED"; "CANCELLED"].
Definition SportType : list string := ["INDIVIDUAL"; "TEAM"; "OTHER"].

Inductive FieldType :=
| TString
| TInt
| TStringList                      (* String[] *)
| TDateTime
| TEnum (members : list string).

(** A stored cell. *)
Inductive scalar :=
| SNull
| SStr (s : string)
| SInt (z : Z)
| SStrs (l : list string)
| SDate (t : Z).

#[global] Instance scalar_eq_dec : EqDecision scalar.
Proof. solve_decision. Defined.

(** How a column gets its value when the write does not give one. *)
Inductive Kind :=
| KRequired
| KOptional                        (* [T?]: null *)
| KDefault (d : scalar)            (* [@default(CONSTANT)] *)
| KId                              (* [@id @default(uuid())] *)
| KCreatedAt                       (* [@default(now())] *)
| KUpdatedAt.                      (* [@updatedAt] *)

Record Field := { fname : string; ftype : FieldType; fkind : Kind }.

Definition fields (m : Model) : list Field :=
  match m with
  | University =>
      [ {| fname := "id"; ftype := TString; fkind := KId |};
        {| fname := "name"; ftype := TString; fkind := KRequired |};
        {| fname := "location"; ftype := TString; fkind := KRequired |};
        {| fname := "imageUrl"; ftype := TString; fkind := KOptional |};
        {| fname := "createdAt"; ftype := TDateTime; fkind := KCreatedAt |};
        {| fname := "updatedAt"; ftype := TDateTime; fkind := KUpdatedAt |} ]
  | Sport =>
      [ {| fname := "id"; ftype := TString; fkind := KId |};
        {| fname := "name"; ftype := TString; fkind := KRequired |};
        {| fname := "universityId"; ftype := TString; fkind := KOptional |};
        {| fname := "type"; ftype := TEnum SportType;
           fkind := KDefault (SStr "INDIVIDUAL") |};
        {| fname := "createdAt"; ftype := TDateTime; fkind := KCreatedAt |};
        {| fname := "updatedAt"; ftype := TDateTime; fkind := KUpdatedAt |} ]
  | Fixture =>
      [ {| fname := "id"; ftype := TString; fkind := KId |};
        {| fname := "sportId"; ftype := TString; fkind := KRequired |};
        {| fname := "homeTeam"; ftype := TString; fkind := KRequired |};
        {| fname := "awayTeam"; ftype := TString; fkind := KRequired |};
        {| fname := "date"; ftype := TDateTime; fkind := KRequired |};
        {| fname := "venue"; ftype := TString; fkind := KRequired |};
        {| fname := "gender"; ftype := TEnum Gender; fkind := KRequired |};
        {| fname := "createdAt"; ftype := TDateTime; fkind := KCreatedAt |};
        {| fname := "updatedAt"; ftype := TDateTime; fkind := KUpdatedAt |} ]
  | Result =>
      [ {| fname := "id"; ftype := TString; fkind := KId |};
        {| fname := "fixtureId"; ftype := TString; fkind := KRequired |};
        {| fname := "homeScore"; ftype := TInt; fkind := KRequired |};
        {| fname := "awayScore"; ftype := TInt; fkind := KRequired |};
        {| fname := "homeScorers"; ftype := TStringList; fkind := KRequired |};
        {| fname := "awayScorers"; ftype := TStringList; fkind := KRequired |};
        {| fname := "status"; ftype := TEnum GameStatus;
           fkind := KDefault (SStr "IN_PROGRESS") |};
        {| fname := "currentPeriod"; ftype := TString; fkind := KOptional |};
        {| fname := "timeElapsed"; ftype := TInt; fkind := KOptional |};
        {| fname := "imageUrl"; ftype := TString; fkind := KOptional |};
        {| fname := "createdAt"; ftype := TDateTime; fkind := KCreatedAt |};
        {| fname := "updatedAt"; ftype := TDateTime; fkind := KUpdatedAt |} ]
  | User =>
      [ {| fname := "id"; ftype := TString; fkind := KId |};
        {| fname := "name"; ftype := TString; fkind := KRequired |};
        {| fname := "email"; ftype := TString; fkind := KRequired |};
        {| fname := "password"; ftype := TString; fkind := KRequired |};
        {| fname := "role"; ftype := TEnum Role; fkind := KDefault (SStr "STUDENT") |};
        {| fname := "gender"; ftype := TEnum Gender; fkind := KRequired |};
        {| fname := "universityId"; ftype := TString; fkind := KOptional |};
        {| fname := "createdAt"; ftype := TDateTime; fkind := KCreatedAt |};
        {| fname := "updatedAt"; ftype := TDateTime; fkind := KUpdatedAt |} ]
  end.

(** Columns marked [@unique] (the primary key apart). *)
Definition unique_fields (m : Model) : list string :=
  match m with
  | Result => ["fixtureId"]
  | User => ["email"]
  | _ => []
  end.

(** [@relation(fields: [fk], references: [id])]: the column and the model it
    points to. *)
Definition foreign_keys (m : Model) : list (string * Model) :=
  match m with
  | University => []
  | Sport => [("universityId", University)]
  | Fixture => [("sportId", Sport)]
  | Result => [("fixtureId", Fixture)]
  | User => [("universityId", University)]
  end.

(** A relation field: through this model's own foreign key, or the other
    side of one ([T[]], or [T?] when the foreign key is unique). *)
Inductive Relation :=
| ToOne (fk : string) (target : Model)
| ToMany (target : Model) (fk : string)
| BackOne (target : Model) (fk : string).

Definition relations (m : Model) : list (string * Relation) :=
  match m with
  | University => [("sports", ToMany Sport "universityId");
                   ("users", ToMany User "universityId")]
  | Sport => [("university", ToOne "universityId" University);
              ("fixtures", ToMany Fixture "sportId")]
  | Fixture => [("sport", ToOne "sportId" Sport);
                ("result", BackOne Result "fixtureId")]
  | Result => [("fixture", ToOne "fixtureId" Fixture)]
  | User => [("university", ToOne "universityId" University)]
  end.

Definition all_models : list Model := [University; Sport; Fixture; Result; User].

Definition find_field (m : Model) (name : string) : option Field :=
  List.find (fun f => String.eqb (fname f) name) (fields m).

End Schema.

(* ===================================================================== *)
(** * The storage client *)
(* ===================================================================== *)

(** The operations of the generated Prisma client that the handlers call,
    over in-memory tables.  The client is not part of the repository; what
    is modelled is what [schema.prisma] asks of it: column types and closed
    enums, required columns, defaults, [@unique], foreign keys with the
    default referential actions (Restrict on a required relation, SetNull on
    an optional one), and the documented results of [findUnique] (null when
    absent), [update] and [delete] (reject when absent) and of
    [skip]/[take]/[where].  Failures of the connection are not modelled. *)

Module Prisma.
Import JS Schema.

Abbreviation Row := (gmap string scalar).
Abbreviation Table := (gmap string (gmap string scalar)).

Record Tables := {
  universities : Table;
  sports : Table;
  fixtures : Table;
  results : Table;
  users : Table;
}.

Definition no_tables : Tables :=
  {| universities := ∅; sports := ∅; fixtures := ∅; results := ∅; users := ∅ |}.

Definition table (m : Model) (t : Tables) : Table :=
  match m with
  | University => universities t
  | Sport => sports t
  | Fixture => fixtures t
  | Result => results t
  | User => users t
  end.

Definition set_table (m : Model) (tb : Table) (t : Tables) : Tables :=
  match m with
  | University => {| universities := tb; sports := sports t; fixtures := fixtures t;
                     results := results t; users := users t |}
  | Sport => {| universities := universities t; sports := tb; fixtures := fixtures t;
                results := results t; users := users t |}
  | Fixture => {| universities := universities t; sports := sports t; fixtures := tb;
                  results := results t; users := users t |}
  | Result => {| universities := universities t; sports := sports t;
                 fixtures := fixtures t; results := tb; users := users t |}
  | User => {| universities := universities t; sports := sports t;
               fixtures := fixtures t; results := results t; users := tb |}
  end.

Inductive PrismaError :=
| ValidationError
| RecordNotFound                         (* P2025 *)
| UniqueConstraint (field : string)      (* P2002 *)
| ForeignKeyConstraint (field : string). (* P2003 *)

(** ** Validation of written values *)

Definition int32 (z : Z) : bool := (- 2 ^ 31 <=? z) && (z <? 2 ^ 31).

Fixpoint all_strings (l : list value) : option (list string) :=
  match l with
  | [] => Some []
  | VStr s :: l' => match all_strings l' with Some r => Some (s :: r) | None => None end
  | _ => None
  end.

Definition check_type (ty : FieldType) (v : value) : option scalar :=
  match ty, v with
  | TString, VStr s => Some (SStr s)
  | TInt, VNum (Int z) => if int32 z then Some (SInt z) else None
  | TStringList, VArr l => SStrs <$> all_strings l
  | TDateTime, VDate (Some t) => Some (SDate t)
  | TEnum members, VStr s => if existsb (String.eqb s) members then Some (SStr s) else None
  | _, _ => None
  end.

(** [data.key], undefined when the property is missing. *)
Definition arg (data : list (string * value)) (key : string) : value :=
  default VUndefined (obj_get key data).

(** The cell a column gets on create. *)
Definition create_cell (id : string) (now : Z) (f : Field) (v : value) : option scalar :=
  match fkind f with
  | KId => Some (SStr id)
  | KCreatedAt | KUpdatedAt => Some (SDate now)
  | k =>
      match v with
      | VUndefined =>
          match k with
          | KOptional => Some SNull
          | KDefault d => Some d
          | _ => None
          end
      | VNull => match k with KOptional => Some SNull | _ => None end
      | _ => check_type (ftype f) v
      end
  end.

Definition create_row (id : string) (now : Z) (m : Model) (data : list (string * value))
    : option Row :=
  foldr (fun f acc =>
           match acc, create_cell id now f (arg data (fname f)) with
           | Some r, Some c => Some (<[fname f := c]> r)
           | _, _ => None
           end)
        (Some ∅) (fields m).

(** The cells an update overwrites: an undefined property leaves its column
    alone, [@updatedAt] is always refreshed. *)
Definition update_cell (now : Z) (f : Field) (v : value) : option (option scalar) :=
  match fkind f with
  | KUpdatedAt => Some (Some (SDate now))
  | k =>
      match v with
      | VUndefined => Some None
      | VNull => match k with KOptional => Some (Some SNull) | _ => None end
      | _ => Some <$> check_type (ftype f) v
      end
  end.

Definition update_patch (now : Z) (m : Model) (data : list (string * value))
    : option Row :=
  foldr (fun f acc =>
           match acc, update_cell now f (arg data (fname f)) with
           | Some r, Some (Some c) => Some (<[fname f := c]> r)
           | Some r, Some None => Some r
           | _, _ => None
           end)
        (Some ∅) (fields m).

(** ** Constraints *)

(** Another row already holds this non-null value in the unique column. *)
Definition taken (f : string) (id : string) (row : Row) (tb : Table) : bool :=
  negb (bool_decide (row !! f = Some SNull)) &&
  negb (bool_decide (map_Forall (fun i (r : Row) => i = id \/ r !! f <> row !! f) tb)).

Definition unique_violation (m : Model) (id : string) (row : Row) (t : Tables)
    : option string :=
  List.find (fun f => taken f id row (table m t)) (unique_fields m).

Definition dangling (t : Tables) (row : Row) (fk : string * Model) : bool :=
  match row !! fk.1 with
  | Some (SStr i) => bool_decide (table fk.2 t !! i = None)
  | _ => false
  end.

Definition fk_violation (m : Model) (row : Row) (t : Tables) : option string :=
  fst <$> List.find (dangling t row) (foreign_keys m).

Definition check_constraints (m : Model) (id : string) (row : Row) (t : Tables)
    : option PrismaError :=
  match unique_violation m id row t with
  | Some f => Some (UniqueConstraint f)
  | None =>
      match fk_violation m row t with
      | Some f => Some (ForeignKeyConstraint f)
      | None => None
      end
  end.

(** ** Writes *)

Definition create (m : Model) (data : list (string * value)) (id : string) (now : Z)
    (t : Tables) : PrismaError + Row * Tables :=
  match create_row id now m data with
  | None => inl ValidationError
  | Some row =>
      match table m t !! id with
      | Some _ => inl (UniqueConstraint "id")
      | None =>
          match check_constraints m id row t with
          | Some e => inl e
          | None => inr (row, set_table m (<[id := row]> (table m t)) t)
          end
      end
  end.

Definition update (m : Model) (id : string) (data : list (string * value)) (now : Z)
    (t : Tables) : PrismaError + Row * Tables :=
  match update_patch now m data with
  | None => inl ValidationError
  | Some patch =>
      match table m t !! id with
      | None => inl RecordNotFound
      | Some old =>
          let row := patch ∪ old in
          match check_constraints m id row t with
          | Some e => inl e
          | None => inr (row, set_table m (<[id := row]> (table m t)) t)
          end
      end
  end.

Definition required_column (m : Model) (name : string) : bool :=
  match find_field m name with
  | Some f => match fkind f with KRequired => true | _ => false end
  | None => false
  end.

(** The foreign keys of the whole schema that point to [m]. *)
Definition incoming (m : Model) : list (Model * string) :=
  flat_map (fun m' =>
              flat_map (fun fk : string * Model =>
                          if bool_decide (fk.2 = m) then [(m', fk.1)] else [])
                       (foreign_keys m'))
           all_models.

Definition references (id : string) (fk : string) (r : Row) : bool :=
  bool_decide (r !! fk = Some (SStr id)).

(** Restrict: a row of a required relation still points to [id]. *)
Definition restricted (id : string) (t : Tables) (ref : Model * string) : bool :=
  required_column ref.1 ref.2 &&
  negb (bool_decide (map_Forall (fun _ r => references id ref.2 r = false)
                                (table ref.1 t))).

(** SetNull on the rows of an optional relation that point to [id]. *)
Definition set_null (id : string) (ref : Model * string) (t : Tables) : Tables :=
  if required_column ref.1 ref.2 then t
  else set_table ref.1
         ((fun r : Row => if references id ref.2 r then <[ref.2 := SNull]> r else r)
            <$> table ref.1 t) t.

Definition delete (m : Model) (id : string) (t : Tables) : PrismaError + Row * Tables :=
  match table m t !! id with
  | None => inl RecordNotFound
  | Some row =>
      match List.find (restricted id t) (incoming m) with
      | Some ref => inl (ForeignKeyConstraint ref.2)
      | None =>
          let t' := foldr (set_null id) t (incoming m) in
          inr (row, set_table m (base.delete id (table m t')) t')
      end
  end.

Definition findUnique (m : Model) (id : string) (t : Tables) : option Row :=
  table m t !! id.

(** ** Filters *)

Definition to_lower (c : ascii) : ascii :=
  let n := code c in
  if (65 <=? n) && (n <=? 90) then ascii_of_N (Z.to_N (n + 32)) else c.

Fixpoint lower (s : string) : string :=
  match s with
  | String c s' => String (to_lower c) (lower s')
  | EmptyString => EmptyString
  end.

(** [needle] occurs in [hay]. *)
Fixpoint occurs (needle hay : string) : bool :=
  String.prefix needle hay ||
  match hay with
  | String _ hay' => occurs needle hay'
  | EmptyString => false
  end.

(** The string filter [{ contains: s, mode }]: the needle and whether the
    match ignores case. *)
Definition string_filter (flt : value) : option (string * bool) :=
  match flt with
  | VObj o =>
      match obj_get "contains" o, obj_get "mode" o with
      | Some (VStr s), Some (VStr md) =>
          if String.eqb md "insensitive" then Some (s, true)
          else if String.eqb md "default" then Some (s, false)
          else None
      | Some (VStr s), None => Some (s, false)
      | _, _ => None
      end
  | _ => None
  end.

(** A filter on a scalar column is accepted: a string to equal (a member,
    for an enum), or a string filter on a String column. *)
Definition valid_filter (ty : FieldType) (flt : value) : bool :=
  match ty, flt with
  | TString, VStr _ => true
  | TString, VObj _ => bool_decide (is_Some (string_filter flt))
  | TEnum members, VStr s => existsb (String.eqb s) members
  | _, _ => false
  end.

Definition match_filter (flt : value) (cell : option scalar) : bool :=
  match flt, cell with
  | VStr s, Some (SStr c) => String.eqb s c
  | VObj _, Some (SStr c) =>
      match string_filter flt with
      | Some (s, true) => occurs (lower s) (lower c)
      | Some (s, false) => occurs s c
      | None => false
      end
  | _, _ => false
  end.

(** The [where] argument is well-formed for the model: every key is [OR]
    with a list of alternatives, a scalar column with a filter of its type,
    or a to-one relation with a [where] of the related model (a list
    relation takes [some]/[every]/[none], which the code never builds). *)
Fixpoint valid_where (m : Model) (w : value) {struct w} : bool :=
  match w with
  | VObj o =>
      (fix entries (o : list (string * value)) : bool :=
         match o with
         | [] => true
         | (k, v) :: o' =>
             (if String.eqb k "OR" then
                match v with
                | VArr l =>
                    (fix alts (l : list value) : bool :=
                       match l with
                       | [] => true
                       | a :: l' => valid_where m a && alts l'
                       end) l
                | _ => false
                end
              else
                match find_field m k with
                | Some f => valid_filter (ftype f) v
                | None =>
                    match obj_get k (relations m) with
                    | Some (ToOne _ target) => valid_where target v
                    | Some (BackOne target _) => valid_where target v
                    | _ => false
                    end
                end)
             && entries o'
         end) o
  | _ => false
  end.

(** The row satisfies the [where] argument: the conjunction of its entries;
    [OR] holds when one alternative does; a relation entry holds when the
    related row exists and satisfies the nested argument. *)
Fixpoint matches (t : Tables) (m : Model) (w : value) (row : Row) {struct w} : bool :=
  match w with
  | VObj o =>
      (fix entries (o : list (string * value)) : bool :=
         match o with
         | [] => true
         | (k, v) :: o' =>
             (if String.eqb k "OR" then
                match v with
                | VArr l =>
                    (fix alts (l : list value) : bool :=
                       match l with
                       | [] => false
                       | a :: l' => matches t m a row || alts l'
                       end) l
                | _ => false
                end
              else
                match find_field m k with
                | Some _ => match_filter v (row !! k)
                | None =>
                    match obj_get k (relations m) with
                    | Some (ToOne fk target) =>
                        match row !! fk with
                        | Some (SStr i) =>
                            match table target t !! i with
                            | Some r' => matches t target v r'
                            | None => false
                            end
                        | _ => false
                        end
                    | Some (BackOne target fk) =>
                        existsb (fun ir : string * Row =>
                                   bool_decide (ir.2 !! fk = row !! "id") &&
                                   matches t target v ir.2)
                                (map_to_list (table target t))
                    | _ => false
                    end
                end)
             && entries o'
         end) o
  | _ => false
  end.

(** ** Reads *)

Definition rows (m : Model) (t : Tables) : list Row := (map_to_list (table m t)).*2.

Definition valid_orderBy (m : Model) (ob : list (string * string)) : bool :=
  forallb (fun kd : string * string =>
             bool_decide (is_Some (find_field m kd.1)) &&
             (String.eqb kd.2 "asc" || String.eqb kd.2 "desc"))
          ob.

(** [skip] rows are passed over, then [take] rows are kept; a negative
    [take] counts from the end of the ordered list. *)
Definition window {A} (skip take : Z) (l : list A) : list A :=
  if 0 <=? take then firstn (Z.to_nat take) (skipn (Z.to_nat skip) l)
  else rev (firstn (Z.to_nat (- take)) (skipn (Z.to_nat skip) (rev l))).

(** [findMany({ skip, take, orderBy, where })]; [order] is the order the
    database returns the matching rows in. *)
Definition findMany (order : list (string * string) -> list Row -> list Row)
    (m : Model) (q : QueryUtils.QueryDescriptor) (t : Tables)
    : PrismaError + list Row :=
  match QueryUtils.skip q, QueryUtils.take q with
  | Int s, Int k =>
      if (0 <=? s) && valid_orderBy m (QueryUtils.orderBy q)
         && valid_where m (VObj (QueryUtils.where_ q))
      then inr (window s k
                  (order (QueryUtils.orderBy q)
                     (List.filter (matches t m (VObj (QueryUtils.where_ q))) (rows m t))))
      else inl ValidationError
  | _, _ => inl ValidationError
  end.

(** [count({ where })] *)
Definition count (m : Model) (w : list (string * value)) (t : Tables)
    : PrismaError + Z :=
  if valid_where m (VObj w)
  then inr (Z.of_nat (length (List.filter (matches t m (VObj w)) (rows m t))))
  else inl ValidationError.

(** ** Selections *)

(** What a query returns of a row: [All] stands for [true] (every scalar
    column), [Include] for [{ include: {...} }] (every scalar column and the
    listed relations), [Select] for [{ select: {...} }] (the listed columns
    and relations only). *)
Inductive Selection :=
| All
| Include (rels : list (string * Selection))
| Select (props : list (string * Selection)).

Definition cell_value (c : scalar) : value :=
  match c with
  | SNull => VNull
  | SStr s => VStr s
  | SInt z => VNum (Int z)
  | SStrs l => VArr (map VStr l)
  | SDate t => VDate (Some t)
  end.

Definition scalars (m : Model) (row : Row) : list (string * value) :=
  map (fun f => (fname f, cell_value (default SNull (row !! fname f)))) (fields m).

Fixpoint project (t : Tables) (m : Model) (sel : Selection) (row : Row) {struct sel}
    : value :=
  let related (name : string) (s : Selection) : value :=
    match obj_get name (relations m) with
    | Some (ToOne fk target) =>
        match row !! fk with
        | Some (SStr i) =>
            match table target t !! i with
            | Some r' => project t target s r'
            | None => VNull
            end
        | _ => VNull
        end
    | Some (ToMany target fk) =>
        VArr (map (project t target s)
                  (List.filter (fun r' : Row => bool_decide (r' !! fk = row !! "id"))
                               (rows target t)))
    | Some (BackOne target fk) =>
        match List.filter (fun r' : Row => bool_decide (r' !! fk = row !! "id"))
                          (rows target t) with
        | r' :: _ => project t target s r'
        | [] => VNull
        end
    | None => VUndefined
    end in
  match sel with
  | All => VObj (scalars m row)
  | Include rels =>
      VObj (scalars m row ++
            (fix each (rels : list (string * Selection)) : list (string * value) :=
               match rels with
               | [] => []
               | (name, s) :: rels' => (name, related name s) :: each rels'
               end) rels)
  | Select props =>
      VObj ((fix each (props : list (string * Selection)) : list (string * value) :=
               match props with
               | [] => []
               | (name, s) :: props' =>
                   match find_field m name with
                   | Some _ => (name, cell_value (default SNull (row !! name)))
                   | None => (name, related name s)
                   end :: each props'
               end) props)
  end.

(** [include] and [select] cannot be given together. *)
Definition selection (include select : option (list (string * Selection)))
    : PrismaError + Selection :=
  match include, select with
  | Some _, Some _ => inl ValidationError
  | Some i, None => inr (Include i)
  | None, Some s => inr (Select s)
  | None, None => inr All
  end.

End Prisma.

(* ===================================================================== *)
(** * The route handlers *)
(* ===================================================================== *)

Module Routes.
Import JS Schema Prisma QueryUtils.

(** [io.emit(name, payload)] *)
Inductive Event := Emit (name : string) (payload : value).

(** The collaborators a handler calls besides the storage client. *)
Record Env := {
  uuid : nat -> string;                      (* the id a row created at this instant gets *)
  upload : string -> option string;          (* cloudinary: path to secure_url, or rejects *)
  JSON_parse : string -> option value;       (* [None]: SyntaxError *)
  bcrypt_hash : string -> string;            (* [bcrypt.hash(password, 10)] *)
  Date_parse : string -> option Z;           (* [new Date(s)], [None]: Invalid Date *)
  emit_ok : Event -> bool;                   (* [io.emit] returns rather than throws *)
  order : list (string * string) -> list Row -> list Row;
  order_perm : forall ob l, Permutation (order ob l) l;
}.

Record World := {
  tables : Tables;
  clock : nat;
  emitted : list Event;
}.

Definition initial_world : World :=
  {| tables := no_tables; clock := O; emitted := [] |}.

Record Response := {
  status : Z;
  body : option value;
}.

Record Request := {
  params_id : string;                        (* [req.params.id] *)
  query : QueryOptions;                      (* [req.query] *)
  req_body : gmap string string;             (* [req.body] *)
  file : option string;                      (* [req.file.path] *)
}.

(** What a [try] block can throw. *)
Inductive Thrown :=
| Storage (e : PrismaError)
| Failure.

(** A computation inside a [try] block: it returns or throws, and in both
    cases leaves the world it has reached. *)
Definition M (A : Type) : Type := World -> (Thrown + A) * World.

Definition Handler : Type := World -> Response * World.

Definition ret {A} (a : A) : M A := fun w => (inr a, w).

Definition bind {A B} (m : M A) (k : A -> M B) : M B :=
  fun w =>
    match m w with
    | (inl e, w') => (inl e, w')
    | (inr a, w') => k a w'
    end.

Definition throw {A} (e : Thrown) : M A := fun w => (inl e, w).

Declare Scope handler_scope.
Delimit Scope handler_scope with handler.
Notation "x <- m ;; k" := (bind m (fun x => k))
  (at level 100, m at next level, right associativity) : handler_scope.
Notation "m ;;; k" := (bind m (fun _ => k))
  (at level 100, right associativity) : handler_scope.
Local Open Scope handler_scope.

(** [try { ... } catch (error) { res.status(500).json(...) }] *)
Definition try_catch (m : M Response) (on_error : Response) : Handler :=
  fun w =>
    match m w with
    | (inr r, w') => (r, w')
    | (inl _, w') => (on_error, w')
    end.

Definition json (st : Z) (v : value) : Response := {| status := st; body := Some v |}.
Definition send (st : Z) : Response := {| status := st; body := None |}.
Definition error_json (st : Z) (msg : string) : Response :=
  json st (VObj [("error", VStr msg)]).

(** A call of the storage client that reads. *)
Definition read {A} (op : Tables -> PrismaError + A) : M A :=
  fun w =>
    match op (tables w) with
    | inl e => (inl (Storage e), w)
    | inr a => (inr a, w)
    end.

(** A call of the storage client that writes. *)
Definition write {A} (op : Tables -> PrismaError + A * Tables) : M A :=
  fun w =>
    match op (tables w) with
    | inl e => (inl (Storage e), w)
    | inr (a, t') =>
        (inr a, {| tables := t'; clock := clock w; emitted := emitted w |})
    end.

Definition the_clock : M nat := fun w => (inr (clock w), w).

(** [await cloudinary.v2.uploader.upload(path)] then [.secure_url] *)
Definition uploaded (env : Env) (path : string) : M string :=
  match upload env path with
  | Some url => ret url
  | None => throw Failure
  end.

(** [io.emit(name, payload)]: the event goes out, then the call returns or
    throws. *)
Definition emit (env : Env) (name : string) (payload : value) : M unit :=
  fun w =>
    let w' := {| tables := tables w; clock := clock w;
                 emitted := emitted w ++ [Emit name payload] |} in
    if emit_ok env (Emit name payload) then (inr tt, w') else (inl Failure, w').

(** The client checks its arguments, runs the query and shapes the rows. *)
Definition prisma_findMany (env : Env) (m : Model) (q : QueryDescriptor)
    (include select : option (list (string * Selection))) : M (list value) :=
  read (fun t =>
          match selection include select with
          | inl e => inl e
          | inr sel =>
              match findMany (order env) m q t with
              | inl e => inl e
              | inr rs => inr (map (project t m sel) rs)
              end
          end).

Definition prisma_count (m : Model) (w : list (string * value)) : M Z :=
  read (count m w).

Definition prisma_findUnique (m : Model) (id : string)
    (include select : option (list (string * Selection))) : M (option value) :=
  read (fun t =>
          match selection include select with
          | inl e => inl e
          | inr sel => inr (project t m sel <$> findUnique m id t)
          end).

Definition shaped (m : Model) (include select : option (list (string * Selection)))
    (op : Tables -> PrismaError + Row * Tables) : M value :=
  write (fun t =>
           match selection include select with
           | inl e => inl e
           | inr sel =>
               match op t with
               | inl e => inl e
               | inr (row, t') => inr (project t' m sel row, t')
               end
           end).

Definition prisma_create (env : Env) (m : Model) (data : list (string * value))
    (include select : option (list (string * Selection))) : M value :=
  now <- the_clock ;;
  shaped m include select (create m data (uuid env now) (Z.of_nat now)).

Definition prisma_update (m : Model) (id : string) (data : list (string * value))
    (include select : option (list (string * Selection))) : M value :=
  now <- the_clock ;;
  shaped m include select (update m id data (Z.of_nat now)).

Definition prisma_delete (m : Model) (id : string) : M unit :=
  write (fun t =>
           match delete m id t with
           | inl e => inl e
           | inr (_, t') => inr (tt, t')
           end).

(** [req.body.key] *)
Definition prop (req : Request) (key : string) : value :=
  match req_body req !! key with
  | Some s => VStr s
  | None => VUndefined
  end.

(** [String(x)] of a body property, for [parseInt(x)]. *)
Definition prop_string (req : Request) (key : string) : string :=
  default "undefined" (req_body req !! key).

(** [options.page || 1] *)
Definition echo (p : option num_param) (dflt : Z) : value :=
  match p with
  | Some (PNum n) => if truthy_number n then VNum n else VNum (Int dflt)
  | Some (PStr s) => if truthy_string s then VStr s else VNum (Int dflt)
  | None => VNum (Int dflt)
  end.

(** ** The five list handlers *)

Definition list_route (env : Env) (m : Model) (searchFields : list string)
    (include select : option (list (string * Selection))) (msg : string)
    (req : Request) : Handler :=
  try_catch
    (let options := query req in
     let queryOptions := buildQueryOptions options searchFields in
     data <- prisma_findMany env m queryOptions include select ;;
     total <- prisma_count m (where_ queryOptions) ;;
     ret (json 200 (VObj [("data", VArr data);
                          ("total", VNum (Int total));
                          ("page", echo (page options) 1);
                          ("limit", echo (limit options) 10)])))
    (error_json 500 msg).

(** ** Fetch and delete, alike in the five files *)

Definition fetch_route (m : Model) (include select : option (list (string * Selection)))
    (missing msg : string) (req : Request) : Handler :=
  try_catch
    (let id := params_id req in
     found <- prisma_findUnique m id include select ;;
     match found with
     | None => ret (error_json 404 missing)
     | Some v => ret (json 200 v)
     end)
    (error_json 500 msg).

Definition delete_route (m : Model) (msg : string) (req : Request) : Handler :=
  try_catch
    (let id := params_id req in
     prisma_delete m id ;;;
     ret (send 204))
    (error_json 500 msg).

(** ** routes/universityRoutes.ts *)

Definition university_include : list (string * Selection) :=
  [("sports", All);
   ("users", Select [("id", All); ("name", All); ("email", All); ("role", All)])].

(** [let imageUrl = init; if (req.file) { imageUrl = (await upload).secure_url }] *)
Definition image_url (env : Env) (req : Request) (init : value) : M value :=
  match file req with
  | Some path => url <- uploaded env path ;; ret (VStr url)
  | None => ret init
  end.

Definition list_universities (env : Env) : Request -> Handler :=
  list_route env University ["name"; "location"] (Some university_include) None
    "An error occurred while fetching universities".

Definition create_university (env : Env) (req : Request) : Handler :=
  try_catch
    (imageUrl <- image_url env req VNull ;;
     university <- prisma_create env University
                     [("name", prop req "name"); ("location", prop req "location");
                      ("imageUrl", imageUrl)]
                     (Some university_include) None ;;
     ret (json 201 university))
    (error_json 500 "An error occurred while creating the university").

Definition fetch_university : Request -> Handler :=
  fetch_route University (Some university_include) None
    "University not found" "An error occurred while fetching the university".

Definition update_university (env : Env) (req : Request) : Handler :=
  try_catch
    (let id := params_id req in
     imageUrl <- image_url env req VUndefined ;;
     university <- prisma_update University id
                     [("name", prop req "name"); ("location", prop req "location");
                      ("imageUrl", imageUrl)]
                     (Some university_include) None ;;
     ret (json 200 university))
    (error_json 500 "An error occurred while updating the university").

Definition delete_university : Request -> Handler :=
  delete_route University "An error occurred while deleting the university".

(** ** routes/sportRoutes.ts

    The file is present in two revisions; the later one, which writes
    [universityId], is the one embedded.  The earlier one differs in the
    written columns ([name], [type]) and in the included relations only. *)

Definition list_sports (env : Env) : Request -> Handler :=
  list_route env Sport ["name"] (Some [("university", All)]) None
    "An error occurred while fetching sports".

Definition create_sport (env : Env) (req : Request) : Handler :=
  try_catch
    (sport <- prisma_create env Sport
                [("name", prop req "name"); ("universityId", prop req "universityId")]
                (Some [("university", All)]) None ;;
     ret (json 201 sport))
    (error_json 500 "An error occurred while creating the sport").

Definition fetch_sport : Request -> Handler :=
  fetch_route Sport (Some [("university", All); ("fixtures", All)]) None
    "Sport not found" "An error occurred while fetching the sport".

Definition update_sport (req : Request) : Handler :=
  try_catch
    (let id := params_id req in
     sport <- prisma_update Sport id
                [("name", prop req "name"); ("universityId", prop req "universityId")]
                (Some [("university", All)]) None ;;
     ret (json 200 sport))
    (error_json 500 "An error occurred while updating the sport").

Definition delete_sport : Request -> Handler :=
  delete_route Sport "An error occurred while deleting the sport".

(** ** routes/fixtureRoutes.ts *)

Definition sport_with_university : list (string * Selection) :=
  [("sport", Include [("university", All)])].

Definition sport_and_result : list (string * Selection) :=
  [("sport", Include [("university", All)]); ("result", All)].

(** [new Date(req.body.date)] *)
Definition new_Date (env : Env) (req : Request) : value :=
  match req_body req !! "date" with
  | Some s => VDate (Date_parse env s)
  | None => VDate None
  end.

Definition fixture_data (env : Env) (req : Request) : list (string * value) :=
  [("sportId", prop req "sportId"); ("homeTeam", prop req "homeTeam");
   ("awayTeam", prop req "awayTeam"); ("date", new_Date env req);
   ("venue", prop req "venue"); ("gender", prop req "gender")].

Definition list_fixtures (env : Env) : Request -> Handler :=
  list_route env Fixture ["homeTeam"; "awayTeam"; "venue"]
    (Some sport_and_result) None
    "An error occurred while fetching fixtures".

Definition create_fixture (env : Env) (req : Request) : Handler :=
  try_catch
    (fixture <- prisma_create env Fixture (fixture_data env req)
                  (Some sport_with_university) None ;;
     ret (json 201 fixture))
    (error_json 500 "An error occurred while creating the fixture").

Definition fetch_fixture : Request -> Handler :=
  fetch_route Fixture (Some sport_and_result) None
    "Fixture not found" "An error occurred while fetching the fixture".

Definition update_fixture (env : Env) (req : Request) : Handler :=
  try_catch
    (let id := params_id req in
     fixture <- prisma_update Fixture id (fixture_data env req)
                  (Some sport_with_university) None ;;
     ret (json 200 fixture))
    (error_json 500 "An error occurred while updating the fixture").

Definition delete_fixture : Request -> Handler :=
  delete_route Fixture "An error occurred while deleting the fixture".

(** ** routes/resultRoutes.ts *)

Definition with_fixture : list (string * Selection) := [("fixture", All)].

(** [x ? JSON.parse(x) : dflt] *)
Definition scorers (env : Env) (req : Request) (key : string) (dflt : value) : M value :=
  match req_body req !! key with
  | Some s =>
      if truthy_string s then
        match JSON_parse env s with
        | Some v => ret v
        | None => throw Failure
        end
      else ret dflt
  | None => ret dflt
  end.

(** [timeElapsed ? parseInt(timeElapsed) : null] *)
Definition time_elapsed (req : Request) : value :=
  match req_body req !! "timeElapsed" with
  | Some s => if truthy_string s then VNum (parseInt s) else VNull
  | None => VNull
  end.

Definition list_results (env : Env) : Request -> Handler :=
  list_route env Result ["homeScore"; "awayScore"; "status"] (Some with_fixture) None
    "An error occurred while fetching results".

Definition create_result (env : Env) (req : Request) : Handler :=
  try_catch
    (imageUrl <- image_url env req VNull ;;
     homeScorers <- scorers env req "homeScorers" (VArr []) ;;
     awayScorers <- scorers env req "awayScorers" (VArr []) ;;
     result <- prisma_create env Result
                 [("fixtureId", prop req "fixtureId");
                  ("homeScore", VNum (parseInt (prop_string req "homeScore")));
                  ("awayScore", VNum (parseInt (prop_string req "awayScore")));
                  ("homeScorers", homeScorers);
                  ("awayScorers", awayScorers);
                  ("status", prop req "status");
                  ("currentPeriod", prop req "currentPeriod");
                  ("timeElapsed", time_elapsed req);
                  ("imageUrl", imageUrl)]
                 (Some with_fixture) None ;;
     emit env "resultUpdate" result ;;;
     ret (json 201 result))
    (error_json 500 "An error occurred while creating the result").

Definition fetch_result : Request -> Handler :=
  fetch_route Result (Some with_fixture) None
    "Result not found" "An error occurred while fetching the result".

Definition update_result (env : Env) (req : Request) : Handler :=
  try_catch
    (let id := params_id req in
     imageUrl <- image_url env req VUndefined ;;
     homeScorers <- scorers env req "homeScorers" VUndefined ;;
     awayScorers <- scorers env req "awayScorers" VUndefined ;;
     result <- prisma_update Result id
                 [("homeScore", VNum (parseInt (prop_string req "homeScore")));
                  ("awayScore", VNum (parseInt (prop_string req "awayScore")));
                  ("homeScorers", homeScorers);
                  ("awayScorers", awayScorers);
                  ("status", prop req "status");
                  ("currentPeriod", prop req "currentPeriod");
                  ("timeElapsed", time_elapsed req);
                  ("imageUrl", imageUrl)]
                 (Some with_fixture) None ;;
     emit env "resultUpdate" result ;;;
     ret (json 200 result))
    (error_json 500 "An error occurred while updating the result").

Definition delete_result (env : Env) (req : Request) : Handler :=
  try_catch
    (let id := params_id req in
     prisma_delete Result id ;;;
     emit env "resultDelete" (VStr id) ;;;
     ret (send 204))
    (error_json 500 "An error occurred while deleting the result").

(** ** routes/userRoutes.ts *)

Definition user_select : list (string * Selection) :=
  [("id", All); ("name", All); ("email", All); ("role", All); ("gender", All);
   ("universityId", All); ("university", Select [("name", All)]);
   ("createdAt", All); ("updatedAt", All)].

(** [await bcrypt.hash(password, 10)]; bcrypt rejects a missing password. *)
Definition hashed (env : Env) (req : Request) : M value :=
  match req_body req !! "password" with
  | Some p => ret (VStr (bcrypt_hash env p))
  | None => throw Failure
  end.

Definition list_users (env : Env) : Request -> Handler :=
  list_route env User ["name"; "email"; "role"; "gender"]
    (Some [("university", All)]) (Some user_select)
    "An error occurred while fetching users".

Definition create_user (env : Env) (req : Request) : Handler :=
  try_catch
    (hashedPassword <- hashed env req ;;
     user <- prisma_create env User
               [("name", prop req "name"); ("email", prop req "email");
                ("password", hashedPassword); ("role", prop req "role");
                ("gender", prop req "gender");
                ("universityId", prop req "universityId")]
               None (Some user_select) ;;
     ret (json 201 user))
    (error_json 500 "An error occurred while creating the user").

Definition fetch_user : Request -> Handler :=
  fetch_route User None (Some user_select)
    "User not found" "An error occurred while fetching the user".

Definition update_user (req : Request) : Handler :=
  try_catch
    (let id := params_id req in
     user <- prisma_update User id
               [("name", prop req "name"); ("email", prop req "email");
                ("role", prop req "role"); ("gender", prop req "gender");
                ("universityId", prop req "universityId")]
               None (Some user_select) ;;
     ret (json 200 user))
    (error_json 500 "An error occurred while updating the user").

Definition delete_user : Request -> Handler :=
  delete_route User "An error occurred while deleting the user".

(** ** The application *)

(** [GET /], [POST /], [GET /:id], [PUT /:id], [DELETE /:id] *)
Inductive Verb := List | Create | Fetch | Update | Delete.

Definition route (env : Env) (m : Model) (v : Verb) : Request -> Handler :=
  match m, v with
  | University, List => list_universities env
  | University, Create => create_university env
  | University, Fetch => fetch_university
  | University, Update => update_university env
  | University, Delete => delete_university
  | Sport, List => list_sports env
  | Sport, Create => create_sport env
  | Sport, Fetch => fetch_sport
  | Sport, Update => update_sport
  | Sport, Delete => delete_sport
  | Fixture, List => list_fixtures env
  | Fixture, Create => create_fixture env
  | Fixture, Fetch => fetch_fixture
  | Fixture, Update => update_fixture env
  | Fixture, Delete => delete_fixture
  | Result, List => list_results env
  | Result, Create => create_result env
  | Result, Fetch => fetch_result
  | Result, Update => update_result env
  | Result, Delete => delete_result env
  | User, List => list_users env
  | User, Create => create_user env
  | User, Fetch => fetch_user
  | User, Update => update_user
  | User, Delete => delete_user
  end.

(** One request served; time passes. *)
Definition serve (env : Env) (m : Model) (v : Verb) (req : Request) (w : World)
    : Response * World :=
  let '(r, w') := route env m v req w in
  (r, {| tables := tables w'; clock := S (clock w'); emitted := emitted w' |}).

(** The worlds the application gets to from its start. *)
Inductive reachable (env : Env) : World -> Prop :=
| reach_start : reachable env initial_world
| reach_serve w m v req :
    reachable env w -> reachable env (serve env m v req w).2.

End Routes.

(* ===================================================================== *)
(** * Sample collaborators and requests *)
(* ===================================================================== *)

Module Samples.
Import JS Schema Prisma QueryUtils Routes.

Definition sample_env : Env :=
  {| uuid := fun n => String.append "id" (decimal (Z.of_nat n));
     upload := fun path => Some (String.append "https://cdn.example/" path);
     JSON_parse := fun s => if String.eqb s "[]" then Some (VArr []) else None;
     bcrypt_hash := fun p => String.append "$2b$10$" p;
     Date_parse := fun s => match parseInt s with Int z => Some z | NaN => None end;
     emit_ok := fun _ => true;
     order := fun _ l => l;
     order_perm := fun _ l => Permutation_refl l |}.

Definition request (id : string) (q : QueryOptions) (b : list (string * string))
    : Request :=
  {| params_id := id; query := q; req_body := list_to_map b; file := None |}.

(** The worlds after a sequence of requests, oldest first. *)
Definition after (steps : list (Model * Verb * Request)) (w : World) : World :=
  fold_left (fun w s => (serve sample_env s.1.1 s.1.2 s.2 w).2) steps w.

(** One university, one of its sports, one fixture of that sport and its
    result. *)
Definition season : World :=
  after [ (University, Create,
           request "" no_options [("name", "Alpha U"); ("location", "Town")]);
          (Sport, Create,
           request "" no_options [("name", "Football"); ("universityId", "id0")]);
          (Fixture, Create,
           request "" no_options
             [("sportId", "id1"); ("homeTeam", "Lions"); ("awayTeam", "Bears");
              ("date", "17"); ("venue", "North field"); ("gender", "MALE")]);
          (Result, Create,
           request "" no_options
             [("fixtureId", "id2"); ("homeScore", "1"); ("awayScore", "2");
              ("status", "FINISHED")]) ]
        initial_world.

Definition page_zero : QueryOptions :=
  {| page := Some (PStr "0"); limit := None; sortBy := None; sortOrder := None;
     search := None; gender := None; role := None; sportId := None;
     universityId := None |}.

Definition by_university (u : string) : QueryOptions :=
  {| page := None; limit := None; sortBy := None; sortOrder := None;
     search := None; gender := None; role := None; sportId := None;
     universityId := Some u |}.

Definition searching (s : string) : QueryOptions :=
  {| page := None; limit := None; sortBy := None; sortOrder := None;
     search := Some s; gender := None; role := None; sportId := None;
     universityId := None |}.

Definition paged (p l : string) : QueryOptions :=
  {| page := Some (PStr p); limit := Some (PStr l); sortBy := None;
     sortOrder := None; search := None; gender := None; role := None;
     sportId := None; universityId := None |}.

End Samples.

(* ===================================================================== *)
(** * Notions the properties are stated with *)
(* ===================================================================== *)

Module Spec.
Import JS Schema Prisma QueryUtils Routes.

Definition is_digit (c : ascii) : bool := (48 <=? code c) && (code c <=? 57).

Fixpoint digits_only (s : string) : bool :=
  match s with
  | String c s' => is_digit c && digits_only s'
  | EmptyString => true
  end.

(** The integer a [page] or [limit] parameter stands for: the default when
    the parameter is absent or falsy (the empty string, the numbers 0 and
    NaN), the integer [parseInt] reads otherwise; no bound is applied. *)
Inductive param_reads (dflt : Z) : option num_param -> Z -> Prop :=
| reads_absent : param_reads dflt None dflt
| reads_empty : param_reads dflt (Some (PStr "")) dflt
| reads_zero : param_reads dflt (Some (PNum (Int 0))) dflt
| reads_nan : param_reads dflt (Some (PNum NaN)) dflt
| reads_string s n :
    s <> "" -> parseInt s = Int n -> param_reads dflt (Some (PStr s)) n
| reads_number n :
    n <> 0 -> param_reads dflt (Some (PNum (Int n))) n.

(** The entry a filter parameter contributes to [where]: none when the
    parameter is absent or empty. *)
Definition entry_of (x : option string) (f : string -> value) : option value :=
  match x with
  | Some s => if truthy_string s then Some (f s) else None
  | None => None
  end.



(** A key occurs somewhere in a value. *)
Fixpoint mentions (key : string) (v : value) {struct v} : bool :=
  match v with
  | VArr l =>
      (fix any (l : list value) : bool :=
         match l with
         | [] => false
         | x :: l' => mentions key x || any l'
         end) l
  | VObj o =>
      (fix any (o : list (string * value)) : bool :=
         match o with
         | [] => false
         | (k, x) :: o' => String.eqb k key || mentions key x || any o'
         end) o
  | _ => false
  end.

(** No two results of the same fixture. *)
Definition one_result_per_fixture (t : Tables) : Prop :=
  forall i j (ri rj : Row) f,
    results t !! i = Some ri -> results t !! j = Some rj ->
    ri !! "fixtureId" = Some (SStr f) -> rj !! "fixtureId" = Some (SStr f) ->
    i = j.


(** The handler answered 500 and left the tables and the channel alone. *)
Definition silent_failure (w w' : World) (r : Response) : Prop :=
  tables w' = tables w /\ emitted w' = emitted w /\ status r = 500.

(** Exactly one event went out; the handler answered [ok], or 500 when
    [io.emit] itself threw. *)
Definition broadcast_once (env : Env) (w w' : World) (r : Response)
    (ev : Event) (ok : Response) : Prop :=
  emitted w' = (emitted w ++ [ev])%list /\
  (r = ok \/ (emit_ok env ev = false /\ status r = 500)).


(** The body of the answer, if any, nowhere has a [password] property. *)
Definition discreet (r : Response) : Prop :=
  match body r with
  | Some b => mentions "password" b = false
  | None => True
  end.

(** Whatever a computation returns satisfies [Q]. *)
Definition returns {A} (c : M A) (Q : A -> Prop) : Prop :=
  forall w a w', c w = (inr a, w') -> Q a.

(** A computation keeps a property of the tables, whether it returns or
    throws. *)
Definition preserves {A} (P : Tables -> Prop) (c : M A) : Prop :=
  forall w, P (tables w) -> P (tables (c w).2).

End Spec.

(* ===================================================================== *)
(** * routes/sportRoutes.ts, the earlier revision *)
(* ===================================================================== *)

(** The handlers of the revision that writes [type] instead of
    [universityId]; its delete handler is the one of the later revision. *)

Module EarlierSportRoutes.
Import JS Schema Prisma QueryUtils Routes.
Local Open Scope handler_scope.

Definition list_sports (env : Env) : Request -> Handler :=
  list_route env Sport ["name"] (Some [("fixtures", All)]) None
    "An error occurred while fetching sports".

Definition create_sport (env : Env) (req : Request) : Handler :=
  try_catch
    (sport <- prisma_create env Sport
                [("name", prop req "name"); ("type", prop req "type")]
                (Some [("fixtures", All)]) None ;;
     ret (json 201 sport))
    (error_json 500 "An error occurred while creating the sport").

Definition fetch_sport : Request -> Handler :=
  fetch_route Sport (Some [("fixtures", All); ("university", All)]) None
    "Sport not found" "An error occurred while fetching the sport".

Definition update_sport (req : Request) : Handler :=
  try_catch
    (let id := params_id req in
     sport <- prisma_update Sport id
                [("name", prop req "name"); ("type", prop req "type")]
                (Some [("university", All); ("fixtures", All)]) None ;;
     ret (json 200 sport))
    (error_json 500 "An error occurred while updating the sport").

End EarlierSportRoutes.

(* ===================================================================== *)
(** * Further notions *)
(* ===================================================================== *)

Module Conduct.
Import JS Schema Prisma QueryUtils Routes.

(** A request that only names an id. *)
Definition get_by (id : string) : Request :=
  {| params_id := id; query := no_options; req_body := ∅; file := None |}.

(** The filter parameter is present and not empty. *)
Definition given (x : option string) : Prop :=
  exists s, x = Some s /\ s <> "".

(** No two rows of the model hold the same string in the column. *)
Definition no_duplicates (m : Model) (column : string) (t : Tables) : Prop :=
  forall i j (ri rj : Row) v,
    table m t !! i = Some ri -> table m t !! j = Some rj ->
    ri !! column = Some (SStr v) -> rj !! column = Some (SStr v) ->
    i = j.

(** Every foreign key that is set names a stored row of the model it points
    to. *)
Definition references_resolve (t : Tables) : Prop :=
  forall m fk target i (row : Row) j,
    In (fk, target) (foreign_keys m) ->
    table m t !! i = Some row -> row !! fk = Some (SStr j) ->
    is_Some (table target t !! j).

(** The columns the update handler of a model never writes. *)
Definition kept (m : Model) : list string :=
  match m with
  | University => ["id"; "createdAt"]
  | Sport => ["id"; "type"; "createdAt"]
  | Fixture => ["id"; "createdAt"]
  | Result => ["id"; "fixtureId"; "createdAt"]
  | User => ["id"; "password"; "createdAt"]
  end.



(** A computation sends nothing to the channel. *)
Definition quiet {A} (c : M A) : Prop :=
  forall w, emitted (c w).2 = emitted w.

(** The sample world after a user has signed up. *)
Definition enrolled : World :=
  (serve Samples.sample_env User Create
     (Samples.request "" no_options
        [("name", "Ann"); ("email", "ann@alpha.example"); ("password", "secret");
         ("gender", "FEMALE"); ("universityId", "id0")])
     Samples.season).2.


(** Every stored sport has the default type. *)
Definition individual (t : Tables) : Prop :=
  forall i (s : Row), sports t !! i = Some s -> s !! "type" = Some (SStr "INDIVIDUAL").

(** SetNull on one row: the foreign key is cleared when it names [id]. *)
Definition cleared (id fk : string) (r : Row) : Row :=
  if references id fk r then <[fk := SNull]> r else r.

(** The row [id] of the model has been replaced by [new]; nothing else has
    changed. *)
Definition replaced (m : Model) (id : string) (new : Row) (t t' : Tables) : Prop :=
  t' = set_table m (<[id := new]> (table m t)) t.

End Conduct.

(* ===================================================================== *)
(** * Properties of the coercions *)
(* ===================================================================== *)

Section Coercions.
Import JS Spec.

Lemma digit_cases d : 0 <= d < 10 ->
  d = 0 \/ d = 1 \/ d = 2 \/ d = 3 \/ d = 4 \/ d = 5 \/ d = 6 \/ d = 7 \/ d = 8 \/ d = 9.
Proof. lia. Qed.

Lemma digit_value_digit_char d :
  0 <= d < 10 -> digit_value 10 (digit_char d) = Some d.
Proof.
  intros H. destruct (digit_cases d H) as [->|[->|[->|[->|[->|[->|[->|[->|[->| ->]]]]]]]]];
    reflexivity.
Qed.

Lemma is_digit_digit_char d : 0 <= d < 10 -> is_digit (digit_char d) = true.
Proof.
  intros H. destruct (digit_cases d H) as [->|[->|[->|[->|[->|[->|[->|[->|[->| ->]]]]]]]]];
    reflexivity.
Qed.

(** Reading back the digits that [digits_acc] writes. *)
Lemma parse_digits_acc fuel : forall n acc a,
  0 <= n < 10 ^ Z.of_nat (S fuel) -> default 0 a = 0 ->
  parse_digits 10 (digits_acc fuel n acc) a = parse_digits 10 acc (Some n).
Proof.
  assert (single : forall n acc a, 0 <= n < 10 -> default 0 a = 0 ->
            parse_digits 10 (String (digit_char (n mod 10)) acc) a
            = parse_digits 10 acc (Some n)).
  { intros n acc a Hn Ha. rewrite (Z.mod_small n 10) by lia.
    cbn [parse_digits]. rewrite digit_value_digit_char by lia.
    rewrite Ha. replace (10 * 0 + n) with n by lia. reflexivity. }
  induction fuel as [|fuel IH]; intros n acc a Hn Ha.
  - apply single; [|exact Ha]. change (10 ^ Z.of_nat 1) with 10 in Hn. lia.
  - cbn [digits_acc]. pose proof (Z.div_mod n 10 ltac:(lia)) as Hdm.
    pose proof (Z.mod_pos_bound n 10 ltac:(lia)) as Hmod.
    destruct (n / 10 =? 0) eqn:Hq.
    + apply Z.eqb_eq in Hq. apply single; [lia|exact Ha].
    + rewrite IH; [| |exact Ha].
      * cbn [parse_digits]. rewrite digit_value_digit_char by lia.
        change (default 0 (Some (n / 10))) with (n / 10).
        replace (10 * (n / 10) + n mod 10) with n by lia. reflexivity.
      * split; [apply Z.div_pos; lia|].
        apply Z.div_lt_upper_bound; [lia|].
        replace (Z.of_nat (S (S fuel))) with (Z.succ (Z.of_nat (S fuel))) in Hn by lia.
        rewrite Z.pow_succ_r in Hn by lia. lia.
Qed.

Lemma digits_acc_digits fuel : forall n acc,
  0 <= n -> digits_only acc = true -> digits_only (digits_acc fuel n acc) = true.
Proof.
  induction fuel as [|fuel IH]; intros n acc Hn Hacc.
  - simpl. rewrite is_digit_digit_char by (apply Z.mod_pos_bound; lia). exact Hacc.
  - cbn [digits_acc]. destruct (n / 10 =? 0).
    + simpl. rewrite is_digit_digit_char by (apply Z.mod_pos_bound; lia). exact Hacc.
    + apply IH; [apply Z.div_pos; lia|].
      simpl. rewrite is_digit_digit_char by (apply Z.mod_pos_bound; lia). exact Hacc.
Qed.

Lemma digits_acc_not_empty fuel : forall n acc, digits_acc fuel n acc <> "".
Proof.
  induction fuel as [|fuel IH]; intros n acc; cbn [digits_acc]; [discriminate|].
  destruct (n / 10 =? 0); [discriminate|apply IH].
Qed.

Lemma fuel_covers n : 0 <= n -> n < 10 ^ Z.of_nat (S (Z.to_nat (Z.log2 n))).
Proof.
  intros Hn. rewrite Nat2Z.inj_succ, Z2Nat.id by apply Z.log2_nonneg.
  destruct (Z.eq_dec n 0) as [->|Hnz]; [reflexivity|].
  pose proof (Z.log2_spec n ltac:(lia)) as [_ Hlt].
  eapply Z.lt_le_trans; [exact Hlt|].
  apply Z.pow_le_mono_l. lia.
Qed.

Lemma code_of_eqb c d : Ascii.eqb c d = true -> code d = code c.
Proof. intros H. apply Ascii.eqb_eq in H. now subst. Qed.

(** A string of digits is read in radix 10, with no sign and no prefix. *)
Lemma parseInt_unsigned s :
  digits_only s = true -> s <> "" ->
  trim_start s = s /\ starts_with "-" s = false /\ starts_with "+" s = false /\
  String.prefix "0x" s = false /\ String.prefix "0X" s = false.
Proof.
  intros Hd Hne. destruct s as [|c s]; [congruence|].
  simpl in Hd. apply andb_true_iff in Hd as [Hc Hs].
  unfold is_digit in Hc. apply andb_true_iff in Hc as [Hlo Hhi].
  apply Z.leb_le in Hlo, Hhi.
  repeat split.
  - simpl. unfold is_white_space.
    destruct (9 <=? code c) eqn:E1, (code c <=? 13) eqn:E2, (code c =? 32) eqn:E3,
      (code c =? 160) eqn:E4; try reflexivity; exfalso; lia.
  - cbn [starts_with]. destruct (Ascii.eqb "-" c) eqn:E; [|reflexivity].
    apply code_of_eqb in E. change (code "-") with 45 in E. lia.
  - cbn [starts_with]. destruct (Ascii.eqb "+" c) eqn:E; [|reflexivity].
    apply code_of_eqb in E. change (code "+") with 43 in E. lia.
  - cbn [String.prefix]. destruct (ascii_dec "0" c); [|reflexivity].
    destruct s as [|d s]; cbn [String.prefix]; [reflexivity|].
    destruct (ascii_dec "x" d) as [<-|]; [|reflexivity].
    simpl in Hs. discriminate.
  - cbn [String.prefix]. destruct (ascii_dec "0" c); [|reflexivity].
    destruct s as [|d s]; cbn [String.prefix]; [reflexivity|].
    destruct (ascii_dec "X" d) as [<-|]; [|reflexivity].
    simpl in Hs. discriminate.
Qed.

Lemma parseInt_decimal n : 0 <= n -> parseInt (decimal n) = Int n.
Proof.
  intros Hn. unfold parseInt.
  destruct (parseInt_unsigned (decimal n)) as (H1 & H2 & H3 & H4 & H5).
  { apply digits_acc_digits; [exact Hn|reflexivity]. }
  { apply digits_acc_not_empty. }
  rewrite H1, H2, H3. cbn [orb]. rewrite H4, H5. cbn [orb]. unfold decimal.
  rewrite parse_digits_acc by (auto using fuel_covers).
  cbn [parse_digits]. f_equal. lia.
Qed.

Lemma parseInt_minus_decimal n : 0 < n -> parseInt (String "-" (decimal n)) = Int (- n).
Proof.
  intros Hn. unfold parseInt.
  change (trim_start (String "-" (decimal n))) with (String "-" (decimal n)).
  change (starts_with "-" (String "-" (decimal n))) with true.
  cbn [orb tail].
  destruct (parseInt_unsigned (decimal n)) as (_ & _ & _ & H4 & H5).
  { apply digits_acc_digits; [lia|reflexivity]. }
  { apply digits_acc_not_empty. }
  rewrite H4, H5. cbn [orb]. unfold decimal.
  rewrite parse_digits_acc by (auto using fuel_covers with lia).
  cbn [parse_digits]. replace (-1 * n) with (- n) by lia. reflexivity.
Qed.

(** [parseInt(n.toString())] is [n] on integers. *)
Lemma parseInt_toString z : parseInt (number_toString (Int z)) = Int z.
Proof.
  unfold number_toString. destruct (z <? 0) eqn:E.
  - apply Z.ltb_lt in E. rewrite parseInt_minus_decimal by lia. f_equal. lia.
  - apply Z.ltb_ge in E. now apply parseInt_decimal.
Qed.

End Coercions.

(* ===================================================================== *)
(** * Properties of [buildQueryOptions] *)
(* ===================================================================== *)

Section QueryBuilder.
Import JS Schema Prisma QueryUtils Spec Samples.

Lemma param_number_reads dflt v n :
  param_reads dflt v n <-> param_number v dflt = Int n.
Proof.
  split.
  - intros [ | | | |s k Hs Hk|k Hk]; try reflexivity.
    + destruct s; [congruence|]. exact Hk.
    + unfold param_number, param_truthy, truthy_number, param_toString.
      destruct (Z.eqb_spec k 0); [congruence|]. apply parseInt_toString.
  - destruct v as [[[|z]|s]|]; unfold param_number; simpl.
    + intros [= <-]. constructor.
    + destruct (Z.eqb_spec z 0) as [->|Hz]; simpl.
      * intros [= <-]. constructor.
      * change (parseInt (if z <? 0 then String "-" (decimal (- z)) else decimal z))
          with (parseInt (number_toString (Int z))).
        rewrite parseInt_toString. intros [= <-]. now constructor.
    + destruct s; simpl.
      * intros [= <-]. constructor.
      * intros H. now constructor.
    + intros [= <-]. constructor.
Qed.

Lemma obj_get_obj_set {A} key (v : A) o k :
  obj_get k (obj_set key v o) = if String.eqb key k then Some v else obj_get k o.
Proof.
  induction o as [|[k' w] o IH]; simpl.
  - rewrite String.eqb_sym. reflexivity.
  - destruct (String.eqb_spec k' key) as [->|Hne]; simpl.
    + rewrite (String.eqb_sym key k). now destruct (String.eqb k key).
    + rewrite IH. destruct (String.eqb_spec k' k) as [->|Hk].
      * destruct (String.eqb_spec key k); [congruence|reflexivity].
      * reflexivity.
Qed.

Lemma obj_get_set_if x key f w k :
  obj_get k (set_if x key f w) =
  if String.eqb key k then
    match entry_of x f with Some v => Some v | None => obj_get k w end
  else obj_get k w.
Proof.
  unfold set_if, entry_of. destruct x as [s|].
  - destruct (truthy_string s).
    + apply obj_get_obj_set.
    + now destruct (String.eqb key k).
  - now destruct (String.eqb key k).
Qed.

(** The entries of a [where] argument are read as a conjunction. *)
Lemma matches_cons t m kv o row :
  matches t m (VObj (kv :: o)) row
  = matches t m (VObj [kv]) row && matches t m (VObj o) row.
Proof. destruct kv as [k v]. cbn. now rewrite andb_true_r. Qed.

Lemma matches_conjunction t m o row :
  matches t m (VObj o) row = forallb (fun kv => matches t m (VObj [kv]) row) o.
Proof.
  induction o as [|kv o IH]; [reflexivity|].
  rewrite matches_cons, IH. reflexivity.
Qed.






Lemma where_OR options fields :
  obj_get "OR" (where_ (buildQueryOptions options fields))
  = entry_of (search options) (fun s => VArr (map (contains_insensitive s) fields)).
Proof.
  unfold buildQueryOptions. cbn [where_]. rewrite !obj_get_set_if. cbn.
  now destruct (entry_of (search options) _).
Qed.







(** The example of the specification: "alpha" is found in "Alpha U" and in
    "BetaAlpha", not in "beta". *)
Example alpha_is_found :
  occurs (lower "alpha") (lower "Alpha U") = true /\
  occurs (lower "alpha") (lower "BetaAlpha") = true /\
  occurs (lower "alpha") (lower "beta") = false.
Proof. repeat split. Qed.



(** A relation entry on fixtures follows [sportId] to the sport. *)
Lemma matches_sport_universityId t u row :
  matches t Fixture (VObj [("sport", VObj [("universityId", VStr u)])]) row = true <->
  exists sid srow,
    row !! "sportId" = Some (SStr sid) /\ sports t !! sid = Some srow /\
    srow !! "universityId" = Some (SStr u).
Proof.
  cbn. rewrite !andb_true_r. split.
  - destruct (row !! "sportId") as [[| sid | | |]|] eqn:Hsid; try discriminate.
    destruct (sports t !! sid) as [srow|] eqn:Hs; [|discriminate].
    destruct (srow !! "universityId") as [[| c | | |]|] eqn:Hu; try discriminate.
    intros Hc. rewrite ?andb_true_r in Hc. apply String.eqb_eq in Hc as ->. eauto.
  - intros (sid & srow & -> & -> & ->). rewrite ?andb_true_r. apply String.eqb_refl.
Qed.

End QueryBuilder.

(* ===================================================================== *)
(** * Properties of the storage client *)
(* ===================================================================== *)

Section Storage.
Import JS Schema Prisma QueryUtils Spec.

Lemma table_set_table m tb t : table m (set_table m tb t) = tb.
Proof. now destruct m. Qed.

Lemma table_set_table_ne m m' tb t : m <> m' -> table m' (set_table m tb t) = table m' t.
Proof. destruct m, m'; intros H; try reflexivity; congruence. Qed.



Lemma update_missing m id data now t :
  table m t !! id = None -> exists e, update m id data now t = inl e.
Proof.
  intros H. unfold update. destruct (update_patch now m data); [|eauto].
  rewrite H. eauto.
Qed.

Lemma delete_missing m id t :
  table m t !! id = None -> delete m id t = inl RecordNotFound.
Proof. intros H. unfold delete. now rewrite H. Qed.

(** ** The unique column of results *)

Lemma not_taken f id (row : Row) (tb : Table) i (r : Row) :
  taken f id row tb = false -> row !! f <> Some SNull ->
  tb !! i = Some r -> i <> id -> r !! f <> row !! f.
Proof.
  unfold taken. intros H Hnn Hi Hne.
  apply andb_false_iff in H as [H|H].
  - apply negb_false_iff, bool_decide_eq_true in H. contradiction.
  - apply negb_false_iff, bool_decide_eq_true in H.
    destruct (H i r Hi) as [?|?]; [contradiction|assumption].
Qed.

Lemma is_taken f id (row : Row) (tb : Table) i (r : Row) :
  row !! f <> Some SNull -> tb !! i = Some r -> i <> id -> r !! f = row !! f ->
  taken f id row tb = true.
Proof.
  intros Hnn Hi Hne Heq. unfold taken. apply andb_true_iff. split.
  - apply negb_true_iff, bool_decide_eq_false. exact Hnn.
  - apply negb_true_iff, bool_decide_eq_false. intros H.
    destruct (H i r Hi) as [?|?]; contradiction.
Qed.

Lemma unchecked_result id row t :
  check_constraints Result id row t = None ->
  taken "fixtureId" id row (results t) = false.
Proof.
  unfold check_constraints, unique_violation. cbn [unique_fields List.find table].
  destruct (taken "fixtureId" id row (results t)); [discriminate|reflexivity].
Qed.

Lemma one_result_per_fixture_ext t t' :
  results t' = results t -> one_result_per_fixture t -> one_result_per_fixture t'.
Proof. unfold one_result_per_fixture. intros ->. auto. Qed.

Lemma one_result_per_fixture_insert t id row :
  one_result_per_fixture t ->
  taken "fixtureId" id row (results t) = false ->
  one_result_per_fixture (set_table Result (<[id := row]> (results t)) t).
Proof.
  intros P Hfree i j ri rj f. cbn [set_table results].
  destruct (decide (i = id)) as [->|Hi], (decide (j = id)) as [->|Hj]; [auto|..].
  - rewrite lookup_insert_eq, lookup_insert_ne by congruence.
    intros [= <-] Hrj Hf Hfj. exfalso.
    apply (not_taken "fixtureId" id row (results t) j rj); congruence.
  - rewrite lookup_insert_eq, lookup_insert_ne by congruence.
    intros Hri [= <-] Hfi Hf. exfalso.
    apply (not_taken "fixtureId" id row (results t) i ri); congruence.
  - rewrite !lookup_insert_ne by congruence. apply P.
Qed.

Lemma written_keeps_one_per_fixture m id row t :
  one_result_per_fixture t ->
  check_constraints m id row t = None ->
  one_result_per_fixture (set_table m (<[id := row]> (table m t)) t).
Proof.
  intros P Hc. destruct (decide (m = Result)) as [->|Hm].
  - apply one_result_per_fixture_insert; [exact P|].
    now apply unchecked_result.
  - eapply one_result_per_fixture_ext; [|exact P].
    apply (table_set_table_ne m Result). exact Hm.
Qed.

Lemma create_keeps_one_per_fixture m data id now t row t' :
  one_result_per_fixture t -> create m data id now t = inr (row, t') ->
  one_result_per_fixture t'.
Proof.
  unfold create. intros P H.
  destruct (create_row id now m data) as [r|]; [|discriminate].
  destruct (table m t !! id); [discriminate|].
  destruct (check_constraints m id r t) eqn:Hc; [discriminate|].
  injection H as <- <-. now apply written_keeps_one_per_fixture.
Qed.

Lemma update_keeps_one_per_fixture m id data now t row t' :
  one_result_per_fixture t -> update m id data now t = inr (row, t') ->
  one_result_per_fixture t'.
Proof.
  unfold update. intros P H.
  destruct (update_patch now m data) as [patch|]; [|discriminate].
  destruct (table m t !! id) as [old|]; [|discriminate].
  destruct (check_constraints m id (patch ∪ old) t) eqn:Hc; [discriminate|].
  injection H as <- <-. now apply written_keeps_one_per_fixture.
Qed.

(** No delete touches a result other than the deleted one: nothing refers
    to results, and the relation from results to fixtures is required. *)
Lemma results_after_set_null m id t :
  results (foldr (set_null id) t (incoming m)) = results t.
Proof. destruct m; reflexivity. Qed.

Lemma delete_keeps_one_per_fixture m id t row t' :
  one_result_per_fixture t -> delete m id t = inr (row, t') ->
  one_result_per_fixture t'.
Proof.
  unfold delete. intros P H.
  destruct (table m t !! id); [|discriminate].
  destruct (List.find _ _); [discriminate|].
  injection H as <- <-.
  destruct (decide (m = Result)) as [->|Hm].
  - intros i j ri rj f. cbn.
    rewrite !lookup_delete_Some. intros [_ Hi] [_ Hj]. now apply P.
  - eapply one_result_per_fixture_ext; [|exact P].
    change (results ?x) with (table Result x).
    rewrite table_set_table_ne by exact Hm. apply results_after_set_null.
Qed.

(** ** The cells of a created row *)

Lemma create_row_cells id now data (fs : list Field) (row : Row) :
  NoDup (map fname fs) ->
  foldr (fun f acc =>
           match acc, create_cell id now f (arg data (fname f)) with
           | Some r, Some c => Some (<[fname f := c]> r)
           | _, _ => None
           end) (Some ∅) fs = Some row ->
  forall f, In f fs -> row !! fname f = create_cell id now f (arg data (fname f)).
Proof.
  revert row. induction fs as [|f0 fs IH]; intros row Hnd Hrow f Hin; [destruct Hin|].
  cbn [foldr] in Hrow. cbn [map] in Hnd. apply NoDup_cons in Hnd as [Hfresh Hnd].
  destruct (foldr _ _ fs) as [r|] eqn:Hr; [|discriminate].
  destruct (create_cell id now f0 (arg data (fname f0))) as [c|] eqn:Hc; [|discriminate].
  injection Hrow as <-. destruct Hin as [->|Hin].
  - now rewrite lookup_insert_eq.
  - rewrite lookup_insert_ne; [now apply IH|].
    intros Heq. apply Hfresh. rewrite Heq. apply list_elem_of_In, in_map, Hin.
Qed.

Lemma created_fixtureId id now data row f :
  create_row id now Result data = Some row -> arg data "fixtureId" = VStr f ->
  row !! "fixtureId" = Some (SStr f).
Proof.
  intros Hrow Hf.
  pose proof (create_row_cells id now data (fields Result) row) as H.
  specialize (H ltac:(apply (bool_decide_unpack _); vm_compute; reflexivity) Hrow
                {| fname := "fixtureId"; ftype := TString; fkind := KRequired |}
                ltac:(cbn; tauto)).
  cbn [fname] in H. rewrite H, Hf. reflexivity.
Qed.

(** A second result of a fixture is rejected: by the check of the written
    values, by the primary key, or by the unique column. *)
Lemma create_second_result t i (r : Row) f data id now :
  results t !! i = Some r -> r !! "fixtureId" = Some (SStr f) ->
  arg data "fixtureId" = VStr f ->
  match create Result data id now t with
  | inl ValidationError => create_row id now Result data = None
  | inl (UniqueConstraint c) =>
      c = "fixtureId" \/ (c = "id" /\ is_Some (results t !! id))
  | _ => False
  end.
Proof.
  intros Hi Hr Hf. unfold create.
  destruct (create_row id now Result data) as [row|] eqn:Hrow; [|reflexivity].
  cbn [table]. destruct (results t !! id) as [x|] eqn:Hid; [right; eauto|].
  pose proof (created_fixtureId id now data row f Hrow Hf) as Hcell.
  unfold check_constraints, unique_violation. cbn [unique_fields List.find table].
  rewrite (is_taken "fixtureId" id row (results t) i r); [now left| | | |];
    congruence.
Qed.

(** ** What a page is made of *)

Lemma In_kept {A} n (l : list A) x : In x (firstn n l) -> In x l.
Proof. intros H. rewrite <- (firstn_skipn n l). apply in_or_app. now left. Qed.

Lemma In_passed {A} n (l : list A) x : In x (skipn n l) -> In x l.
Proof. intros H. rewrite <- (firstn_skipn n l). apply in_or_app. now right. Qed.

Lemma In_window {A} skip take (l : list A) x : In x (window skip take l) -> In x l.
Proof.
  unfold window. destruct (0 <=? take); intros H.
  - eapply In_passed, In_kept, H.
  - apply in_rev in H. apply in_rev. eapply In_passed, In_kept, H.
Qed.

(** Every row of a page is a stored row that satisfies [where]. *)
Lemma findMany_sound order m q t rs row :
  (forall ob l, Permutation (order ob l) l) ->
  findMany order m q t = inr rs -> In row rs ->
  In row (rows m t) /\ matches t m (VObj (where_ q)) row = true.
Proof.
  intros Hperm. unfold findMany.
  destruct (skip q) as [|sk]; [discriminate|]. destruct (take q) as [|tk]; [discriminate|].
  destruct (_ && _); [|discriminate]. intros [= <-] Hin.
  apply In_window in Hin. apply (Permutation_in _ (Hperm _ _)) in Hin.
  now apply filter_In in Hin.
Qed.

Lemma obj_get_In {A} key (v : A) o : obj_get key o = Some v -> In (key, v) o.
Proof.
  induction o as [|[k w] o IH]; [discriminate|]. cbn.
  destruct (String.eqb_spec k key) as [->|_]; [intros [= ->]; now left|auto].
Qed.

End Storage.

(* ===================================================================== *)
(** * Properties of the handlers *)
(* ===================================================================== *)

Section Handlers.
Import JS Schema Prisma QueryUtils Routes Spec Samples.
Local Open Scope handler_scope.

(** ** What every computation of a handler preserves *)

Section Preservation.
Variable P : Tables -> Prop.

Lemma preserves_ret {A} (a : A) : preserves P (ret a).
Proof. intros w H. exact H. Qed.

Lemma preserves_throw {A} e : preserves P (@throw A e).
Proof. intros w H. exact H. Qed.

Lemma preserves_bind {A B} (c : M A) (k : A -> M B) :
  preserves P c -> (forall a, preserves P (k a)) -> preserves P (bind c k).
Proof.
  intros Hc Hk w H. unfold bind. specialize (Hc w H).
  destruct (c w) as [[e|a] w']; [exact Hc|]. now apply Hk.
Qed.

Lemma preserves_read {A} (op : Tables -> PrismaError + A) : preserves P (read op).
Proof. intros w H. unfold read. now destruct (op (tables w)). Qed.

Lemma preserves_write {A} (op : Tables -> PrismaError + A * Tables) :
  (forall t a t', P t -> op t = inr (a, t') -> P t') -> preserves P (write op).
Proof.
  intros Hop w H. unfold write.
  destruct (op (tables w)) as [e|[a t']] eqn:E; [exact H|].
  cbn. eapply Hop; eauto.
Qed.

Lemma preserves_the_clock : preserves P the_clock.
Proof. intros w H. exact H. Qed.

Lemma preserves_emit env name payload : preserves P (emit env name payload).
Proof. intros w H. unfold emit. now destruct (emit_ok env _). Qed.

Lemma preserves_try_catch (c : M Response) r w :
  preserves P c -> P (tables w) -> P (tables (try_catch c r w).2).
Proof.
  intros Hc H. unfold try_catch. specialize (Hc w H).
  now destruct (c w) as [[e|a] w'].
Qed.

Lemma preserves_uploaded env path : preserves P (uploaded env path).
Proof.
  unfold uploaded. destruct (upload env path);
    [apply preserves_ret|apply preserves_throw].
Qed.

Lemma preserves_image_url env req init : preserves P (image_url env req init).
Proof.
  unfold image_url. destruct (file req); [|apply preserves_ret].
  apply preserves_bind; [apply preserves_uploaded|intros; apply preserves_ret].
Qed.

Lemma preserves_scorers env req key dflt : preserves P (scorers env req key dflt).
Proof.
  unfold scorers. destruct (req_body req !! key) as [s|]; [|apply preserves_ret].
  destruct (truthy_string s); [|apply preserves_ret].
  destruct (JSON_parse env s); [apply preserves_ret|apply preserves_throw].
Qed.

Lemma preserves_hashed env req : preserves P (hashed env req).
Proof.
  unfold hashed. destruct (req_body req !! "password");
    [apply preserves_ret|apply preserves_throw].
Qed.

Lemma preserves_shaped m include select op :
  (forall t row t', P t -> op t = inr (row, t') -> P t') ->
  preserves P (shaped m include select op).
Proof.
  intros Hop. apply preserves_write. intros t a t' H.
  destruct (selection include select); [discriminate|].
  destruct (op t) as [e|[row t'']] eqn:E; [discriminate|].
  intros [= <- <-]. eapply Hop; eauto.
Qed.

Hypothesis create_keeps : forall m data id now t row t',
  P t -> create m data id now t = inr (row, t') -> P t'.
Hypothesis update_keeps : forall m id data now t row t',
  P t -> update m id data now t = inr (row, t') -> P t'.
Hypothesis delete_keeps : forall m id t row t',
  P t -> delete m id t = inr (row, t') -> P t'.

Lemma preserves_create env m data include select :
  preserves P (prisma_create env m data include select).
Proof.
  apply preserves_bind; [apply preserves_the_clock|]. intros now.
  apply preserves_shaped. eauto.
Qed.

Lemma preserves_update m id data include select :
  preserves P (prisma_update m id data include select).
Proof.
  apply preserves_bind; [apply preserves_the_clock|]. intros now.
  apply preserves_shaped. eauto.
Qed.

Lemma preserves_delete m id : preserves P (prisma_delete m id).
Proof.
  apply preserves_write. intros t a t' H.
  destruct (delete m id t) as [e|[row t'']] eqn:E; [discriminate|].
  intros Heq. injection Heq as _ <-. eauto.
Qed.

Lemma preserves_list env m fields include select msg req w :
  P (tables w) -> P (tables (list_route env m fields include select msg req w).2).
Proof.
  apply preserves_try_catch.
  apply preserves_bind; [apply preserves_read|]. intros data.
  apply preserves_bind; [apply preserves_read|]. intros total.
  apply preserves_ret.
Qed.

Lemma preserves_fetch m include select missing msg req w :
  P (tables w) -> P (tables (fetch_route m include select missing msg req w).2).
Proof.
  apply preserves_try_catch.
  apply preserves_bind; [apply preserves_read|].
  intros [v|]; apply preserves_ret.
Qed.

Lemma preserves_delete_route m msg req w :
  P (tables w) -> P (tables (delete_route m msg req w).2).
Proof.
  apply preserves_try_catch.
  apply preserves_bind; [apply preserves_delete|]. intros _. apply preserves_ret.
Qed.

(** Whatever the three writes of the storage client keep, every handler
    keeps. *)
Lemma route_preserves env m v req w :
  P (tables w) -> P (tables (route env m v req w).2).
Proof.
  destruct m, v; cbn [route];
    first [ apply preserves_list | apply preserves_fetch | apply preserves_delete_route
          | apply preserves_try_catch;
            repeat first
              [ apply preserves_ret | apply preserves_image_url | apply preserves_scorers
              | apply preserves_hashed | apply preserves_create | apply preserves_update
              | apply preserves_delete | apply preserves_emit
              | apply preserves_bind; [|intros ?] ] ].
Qed.

Lemma serve_preserves env m v req w :
  P (tables w) -> P (tables (serve env m v req w).2).
Proof.
  intros H. unfold serve. pose proof (route_preserves env m v req w H) as H'.
  now destruct (route env m v req w).
Qed.

End Preservation.

(** ** The handlers of results *)

Lemma image_url_cases env req init w :
  image_url env req init w = (inl Failure, w) \/
  exists v, image_url env req init w = (inr v, w).
Proof.
  unfold image_url, uploaded, bind, ret, throw.
  destruct (file req) as [path|]; [|eauto].
  destruct (upload env path); eauto.
Qed.

Lemma scorers_cases env req key dflt w :
  scorers env req key dflt w = (inl Failure, w) \/
  exists v, scorers env req key dflt w = (inr v, w).
Proof.
  unfold scorers, ret, throw.
  destruct (req_body req !! key) as [s|]; [|eauto].
  destruct (truthy_string s); [|eauto].
  destruct (JSON_parse env s); eauto.
Qed.





Lemma create_result_spec env req w r w' :
  create_result env req w = (r, w') ->
  silent_failure w w' r \/
  exists data row,
    arg data "fixtureId" = prop req "fixtureId" /\
    create Result data (uuid env (clock w)) (Z.of_nat (clock w)) (tables w)
      = inr (row, tables w') /\
    let payload := project (tables w') Result (Include with_fixture) row in
    broadcast_once env w w' r (Emit "resultUpdate" payload) (json 201 payload).
Proof.
  unfold create_result, try_catch. unfold bind at 1.
  destruct (image_url_cases env req VNull w) as [->|[imageUrl ->]];
    [intros [= <- <-]; left; repeat split|].
  unfold bind at 1.
  destruct (scorers_cases env req "homeScorers" (VArr []) w) as [->|[hs ->]];
    [intros [= <- <-]; left; repeat split|].
  unfold bind at 1.
  destruct (scorers_cases env req "awayScorers" (VArr []) w) as [->|[aws ->]];
    [intros [= <- <-]; left; repeat split|].
  unfold prisma_create, the_clock, shaped, write, bind, emit, ret.
  cbn [selection].
  match goal with
  | |- context [create Result ?d ?i ?n (tables w)] =>
      destruct (create Result d i n (tables w)) as [e|[row t']] eqn:Hc
  end.
  - intros [= <- <-]. left. repeat split.
  - cbn [tables clock emitted].
    match type of Hc with create _ ?d _ _ _ = _ => pose (data := d) end.
    destruct (emit_ok env _) eqn:Hok; intros [= <- <-]; right; exists data, row;
      (split; [reflexivity|]); (split; [exact Hc|]); cbn; split; auto.
Qed.

Lemma update_result_spec env req w r w' :
  update_result env req w = (r, w') ->
  silent_failure w w' r \/
  exists data row,
    update Result (params_id req) data (Z.of_nat (clock w)) (tables w)
      = inr (row, tables w') /\
    let payload := project (tables w') Result (Include with_fixture) row in
    broadcast_once env w w' r (Emit "resultUpdate" payload) (json 200 payload).
Proof.
  unfold update_result, try_catch. unfold bind at 1.
  destruct (image_url_cases env req VUndefined w) as [->|[imageUrl ->]];
    [intros [= <- <-]; left; repeat split|].
  unfold bind at 1.
  destruct (scorers_cases env req "homeScorers" VUndefined w) as [->|[hs ->]];
    [intros [= <- <-]; left; repeat split|].
  unfold bind at 1.
  destruct (scorers_cases env req "awayScorers" VUndefined w) as [->|[aws ->]];
    [intros [= <- <-]; left; repeat split|].
  unfold prisma_update, the_clock, shaped, write, bind, emit, ret.
  cbn [selection].
  match goal with
  | |- context [update Result ?i ?d ?n (tables w)] =>
      destruct (update Result i d n (tables w)) as [e|[row t']] eqn:Hc
  end.
  - intros [= <- <-]. left. repeat split.
  - cbn [tables clock emitted].
    match type of Hc with update _ _ ?d _ _ = _ => pose (data := d) end.
    destruct (emit_ok env _) eqn:Hok; intros [= <- <-]; right; exists data, row;
      (split; [exact Hc|]); cbn; split; auto.
Qed.

Lemma delete_result_spec env req w r w' :
  delete_result env req w = (r, w') ->
  silent_failure w w' r \/
  exists row,
    delete Result (params_id req) (tables w) = inr (row, tables w') /\
    broadcast_once env w w' r (Emit "resultDelete" (VStr (params_id req))) (send 204).
Proof.
  unfold delete_result, try_catch, prisma_delete, write, bind, emit, ret.
  destruct (delete Result (params_id req) (tables w)) as [e|[row t']] eqn:Hc.
  - intros [= <- <-]. left. repeat split.
  - cbn [tables clock emitted].
    destruct (emit_ok env _) eqn:Hok; intros [= <- <-]; right; exists row;
      (split; [reflexivity|]); cbn; split; auto.
Qed.

Lemma tables_try_catch c r w : tables (try_catch c r w).2 = tables (c w).2.
Proof. unfold try_catch. now destruct (c w) as [[e|a] w']. Qed.


Lemma tables_bind_tail {A B} (c : M A) (k : A -> M B) w :
  (forall a w1, tables (k a w1).2 = tables w1) ->
  tables (bind c k w).2 = tables (c w).2.
Proof. intros H. unfold bind. destruct (c w) as [[e|a] w1]; [reflexivity|apply H]. Qed.

Lemma tables_emit_ret env name payload (r : Response) w :
  tables ((emit env name payload ;;; ret r) w).2 = tables w.
Proof. unfold bind, emit, ret. now destruct (emit_ok env _). Qed.



(** C9: in every world the application reaches no two results belong to
    the same fixture; and a request to create a result for a fixture that
    has one is answered 500 with the tables and the channel untouched: the
    storage client rejects such a write, for the unique [fixtureId] as soon
    as the written values are well-formed and the new id is free. *)
Theorem one_result_per_fixture_always env w :
  reachable env w ->
  one_result_per_fixture (tables w) /\
  forall req i (r : Row) f,
    results (tables w) !! i = Some r -> r !! "fixtureId" = Some (SStr f) ->
    req_body req !! "fixtureId" = Some f ->
    silent_failure w (create_result env req w).2 (create_result env req w).1 /\
    forall data id now, arg data "fixtureId" = VStr f ->
      match create Result data id now (tables w) with
      | inl ValidationError => create_row id now Result data = None
      | inl (UniqueConstraint c) =>
          c = "fixtureId" \/ (c = "id" /\ is_Some (results (tables w) !! id))
      | _ => False
      end.
Proof.
  intros Hreach. split.
  - induction Hreach as [|w m v req Hreach IH].
    + intros i j ri rj f Hi. cbn in Hi. now rewrite lookup_empty in Hi.
    + apply serve_preserves; [| | |exact IH].
      * apply create_keeps_one_per_fixture.
      * apply update_keeps_one_per_fixture.
      * apply delete_keeps_one_per_fixture.
  - intros req i r f Hi Hr Hreq. split.
    + destruct (create_result env req w) as [resp w'] eqn:H. cbn [fst snd].
      destruct (create_result_spec env req w resp w' H)
        as [?|(data & row & Hd & Hc & _)]; [assumption|exfalso].
      unfold prop in Hd. rewrite Hreq in Hd.
      pose proof (create_second_result (tables w) i r f data
                    (uuid env (clock w)) (Z.of_nat (clock w)) Hi Hr Hd) as Hno.
      now rewrite Hc in Hno.
    + intros data id now Hd. now apply (create_second_result (tables w) i r f).
Qed.

Lemma season_is_reachable : reachable sample_env season.
Proof.
  unfold season, after. cbn [fold_left fst snd].
  repeat apply reach_serve. apply reach_start.
Qed.

Lemma one_result_per_fixture_always_witness :
  one_result_per_fixture (tables season) /\
  forall req i (r : Row) f,
    results (tables season) !! i = Some r -> r !! "fixtureId" = Some (SStr f) ->
    req_body req !! "fixtureId" = Some f ->
    silent_failure season (create_result sample_env req season).2
      (create_result sample_env req season).1 /\
    forall data id now, arg data "fixtureId" = VStr f ->
      match create Result data id now (tables season) with
      | inl ValidationError => create_row id now Result data = None
      | inl (UniqueConstraint c) =>
          c = "fixtureId" \/ (c = "id" /\ is_Some (results (tables season) !! id))
      | _ => False
      end.
Proof.
  apply (one_result_per_fixture_always sample_env season). apply season_is_reachable.
Defined.

(** The fixture "id2" of the sample world has its result: a second one is
    refused and the first one stays as it is. *)
Example second_result_is_refused :
  let req := request "" no_options
               [("fixtureId", "id2"); ("homeScore", "4"); ("awayScore", "4")] in
  (serve sample_env Result Create req season).1
    = error_json 500 "An error occurred while creating the result" /\
  tables (serve sample_env Result Create req season).2 = tables season /\
  emitted (serve sample_env Result Create req season).2 = emitted season.
Proof. vm_compute. repeat split. Qed.

(** ** Requests for an id that is not stored *)

Lemma fails_now {A B} (c : M A) (k : A -> M B) w :
  (exists e, c w = (inl e, w)) -> exists e w', bind c k w = (inl e, w').
Proof. intros [e H]. unfold bind. rewrite H. eauto. Qed.

Lemma fails_later {A B} (P : Tables -> Prop) (c : M A) (k : A -> M B) w :
  preserves P c -> P (tables w) ->
  (forall a w1, P (tables w1) -> exists e w2, k a w1 = (inl e, w2)) ->
  exists e w2, bind c k w = (inl e, w2).
Proof.
  intros Hc Hw Hk. unfold bind. specialize (Hc w Hw).
  destruct (c w) as [[e|a] w1]; [eauto|]. now apply Hk.
Qed.

Lemma caught (c : M Response) r w :
  (exists e w', c w = (inl e, w')) -> (try_catch c r w).1 = r.
Proof. intros (e & w' & H). unfold try_catch. now rewrite H. Qed.

Lemma prisma_update_missing m id data include select w :
  table m (tables w) !! id = None ->
  exists e, prisma_update m id data include select w = (inl e, w).
Proof.
  intros H. unfold prisma_update, bind, the_clock, shaped, write.
  destruct (selection include select); [eauto|].
  destruct (update_missing m id data (Z.of_nat (clock w)) (tables w) H) as [e ->].
  eauto.
Qed.

Lemma prisma_delete_missing m id w :
  table m (tables w) !! id = None ->
  exists e, prisma_delete m id w = (inl e, w).
Proof.
  intros H. unfold prisma_delete, write. rewrite (delete_missing m id (tables w) H).
  eauto.
Qed.

(** For an id that is not stored, the fetch handler of every resource
    answers 404 with an error message, the update and delete handlers
    answer 500; the tables stay as they are. *)
Lemma missing_id_responses env m req w :
  table m (tables w) !! params_id req = None ->
  (exists msg, (route env m Fetch req w).1 = error_json 404 msg) /\
  (exists msg, (route env m Update req w).1 = error_json 500 msg) /\
  (exists msg, (route env m Delete req w).1 = error_json 500 msg).
Proof.
  intros H. repeat split.
  - destruct m; cbn [route]; eexists;
      unfold fetch_university, fetch_sport, fetch_fixture, fetch_result, fetch_user,
        fetch_route, try_catch, bind, prisma_findUnique, read, findUnique;
      cbn [selection]; cbn [table] in H |- *; rewrite H; reflexivity.
  - set (P := fun t : Tables => table m t !! params_id req = None).
    destruct m; cbn [route]; eexists; apply caught;
      repeat first
        [ apply fails_now; apply prisma_update_missing; exact H
        | apply (fails_later P);
          [ first [apply preserves_image_url | apply preserves_scorers]
          | exact H
          | clear w H; intros ? w H ] ].
  - destruct m; cbn [route]; eexists; apply caught;
      apply fails_now; apply prisma_delete_missing; exact H.
Qed.

(** C3, at an input where the code departs from it: deleting a user that
    does not exist is answered 500, and so is updating one; only the fetch
    is answered 404. *)
Theorem missing_user_is_500 :
  let req := request "nobody" no_options [("name", "Ann")] in
  (serve sample_env User Delete req initial_world).1
    = error_json 500 "An error occurred while deleting the user" /\
  (serve sample_env User Update req initial_world).1
    = error_json 500 "An error occurred while updating the user" /\
  (serve sample_env User Fetch req initial_world).1
    = error_json 404 "User not found" /\
  (serve sample_env Result Delete req initial_world).1
    = error_json 500 "An error occurred while deleting the result".
Proof. vm_compute. repeat split. Qed.

(** ** The list handlers *)

Lemma list_route_cases env m fields include select msg req w :
  (list_route env m fields include select msg req w).1 = error_json 500 msg \/
  exists sel rs total,
    selection include select = inr sel /\
    findMany (order env) m (buildQueryOptions (query req) fields) (tables w) = inr rs /\
    (list_route env m fields include select msg req w).1
    = json 200 (VObj [("data", VArr (map (project (tables w) m sel) rs));
                      ("total", VNum (Int total));
                      ("page", echo (page (query req)) 1);
                      ("limit", echo (limit (query req)) 10)]).
Proof.
  unfold list_route, try_catch, bind, prisma_findMany, prisma_count, read, ret.
  destruct (selection include select) as [e|sel]; [now left|].
  destruct (findMany _ _ _ _) as [e|rs]; [now left|].
  destruct (count _ _ _) as [e|total]; [now left|].
  right. exists sel, rs, total. repeat split.
Qed.




(** The first page of one university, asked with [limit] 5. *)
Example one_university_listed :
  exists u,
    (route sample_env University List (request "" (paged "1" "5") []) season).1
    = json 200 (VObj [("data", VArr [u]); ("total", VNum (Int 1));
                      ("page", VStr "1"); ("limit", VStr "5")]).
Proof. eexists. vm_compute. reflexivity. Qed.

(** ** The [universityId] parameter *)

(** C2, as stated, fails: in the sport listing the [where] object has no
    direct [universityId] entry; the request is answered with an error
    although the sport "id1" of that university is stored. *)
Lemma sport_listing_has_no_direct_universityId :
  obj_get "universityId" (where_ (buildQueryOptions (by_university "id0") ["name"]))
    = None /\
  (exists row, sports (tables season) !! "id1" = Some row /\
               row !! "universityId" = Some (SStr "id0")) /\
  (route sample_env Sport List (request "" (by_university "id0") []) season).1
    = error_json 500 "An error occurred while fetching sports".
Proof.
  split; [reflexivity|]. split; [|vm_compute; reflexivity].
  vm_compute. eexists. split; reflexivity.
Qed.

(** C2 (amended): the builder does not know the listing it serves.  With a
    non-empty [universityId] the [where] object holds the relation entry
    [sport: { universityId }] and no direct [universityId] entry, whatever
    the searchable fields (those of the sport listing as those of the
    fixture listing); on fixtures that entry is well-formed, it holds of the
    fixtures whose sport has this [universityId], and a page of fixtures
    holds such fixtures only. *)
Theorem universityId_filters_through_sport options fields u :
  universityId options = Some u -> u <> "" ->
  obj_get "sport" (where_ (buildQueryOptions options fields))
    = Some (VObj [("universityId", VStr u)]) /\
  obj_get "universityId" (where_ (buildQueryOptions options fields)) = None /\
  valid_where Fixture (VObj [("sport", VObj [("universityId", VStr u)])]) = true /\
  (forall t row,
     matches t Fixture (VObj [("sport", VObj [("universityId", VStr u)])]) row = true <->
     exists sid srow,
       row !! "sportId" = Some (SStr sid) /\ sports t !! sid = Some srow /\
       srow !! "universityId" = Some (SStr u)) /\
  (forall env t rs row,
     findMany (order env) Fixture (buildQueryOptions options fields) t = inr rs ->
     In row rs ->
     exists sid srow,
       row !! "sportId" = Some (SStr sid) /\ sports t !! sid = Some srow /\
       srow !! "universityId" = Some (SStr u)).
Proof.
  intros Hu Hne.
  assert (Hsport : obj_get "sport" (where_ (buildQueryOptions options fields))
                   = Some (VObj [("universityId", VStr u)])).
  { unfold buildQueryOptions. cbn [where_]. rewrite !obj_get_set_if. cbn.
    rewrite Hu. destruct u; [congruence|reflexivity]. }
  split; [exact Hsport|]. split; [|split; [reflexivity|split]].
  - unfold buildQueryOptions. cbn [where_]. rewrite !obj_get_set_if. reflexivity.
  - intros t row. apply matches_sport_universityId.
  - intros env t rs row Hrs Hin.
    destruct (findMany_sound _ _ _ _ _ _ (order_perm env) Hrs Hin) as [_ Hm].
    rewrite matches_conjunction in Hm.
    apply obj_get_In in Hsport.
    pose proof (proj1 (forallb_forall _ _) Hm _ Hsport) as Hentry.
    now apply matches_sport_universityId in Hentry.
Qed.

Lemma universityId_filters_through_sport_witness :
  obj_get "sport" (where_ (buildQueryOptions (by_university "id0") ["name"]))
    = Some (VObj [("universityId", VStr "id0")]) /\
  obj_get "universityId" (where_ (buildQueryOptions (by_university "id0") ["name"]))
    = None /\
  valid_where Fixture (VObj [("sport", VObj [("universityId", VStr "id0")])]) = true /\
  (forall t row,
     matches t Fixture (VObj [("sport", VObj [("universityId", VStr "id0")])]) row
       = true <->
     exists sid srow,
       row !! "sportId" = Some (SStr sid) /\ sports t !! sid = Some srow /\
       srow !! "universityId" = Some (SStr "id0")) /\
  (forall env t rs row,
     findMany (order env) Fixture (buildQueryOptions (by_university "id0") ["name"]) t
       = inr rs ->
     In row rs ->
     exists sid srow,
       row !! "sportId" = Some (SStr sid) /\ sports t !! sid = Some srow /\
       srow !! "universityId" = Some (SStr "id0")).
Proof.
  apply (universityId_filters_through_sport (by_university "id0") ["name"] "id0");
    [reflexivity|discriminate].
Defined.

(** The fixture of the sample world is listed for its university. *)
Example fixture_listed_by_university :
  exists f,
    (route sample_env Fixture List (request "" (by_university "id0") []) season).1
    = json 200 (VObj [("data", VArr [f]); ("total", VNum (Int 1));
                      ("page", VNum (Int 1)); ("limit", VNum (Int 10))]).
Proof. eexists. vm_compute. reflexivity. Qed.

(** ** The handlers of users *)

Lemma mentions_VObj key o :
  mentions key (VObj o)
  = existsb (fun kv : string * value => String.eqb kv.1 key || mentions key kv.2) o.
Proof.
  induction o as [|[k x] o IH]; [reflexivity|].
  cbn [existsb fst snd]. rewrite <- IH. reflexivity.
Qed.

Lemma mentions_cell key c : mentions key (cell_value c) = false.
Proof.
  destruct c as [| | |l|]; try reflexivity.
  induction l as [|x l IH]; [reflexivity|exact IH].
Qed.

(** The selection of the user handlers returns no [password]. *)
Lemma user_select_hides_password t row :
  mentions "password" (project t User (Select user_select) row) = false.
Proof.
  cbn [project user_select]. rewrite mentions_VObj.
  cbn -[mentions cell_value]. rewrite !mentions_cell.
  destruct (row !! "universityId") as [[| i | | |]|]; try reflexivity.
  destruct (universities t !! i) as [u|]; [|reflexivity].
  rewrite mentions_VObj. cbn -[mentions cell_value]. now rewrite mentions_cell.
Qed.

Lemma returns_ret {A} (a : A) (Q : A -> Prop) : Q a -> returns (ret a) Q.
Proof. intros H w a' w' [= <- _]. exact H. Qed.

Lemma returns_bind {A B} (c : M A) (k : A -> M B) (Q1 : A -> Prop) (Q2 : B -> Prop) :
  returns c Q1 -> (forall a, Q1 a -> returns (k a) Q2) -> returns (bind c k) Q2.
Proof.
  intros Hc Hk w b w'. unfold bind.
  destruct (c w) as [[e|a] w1] eqn:E; [discriminate|].
  intros H. eapply Hk; [|exact H]. eapply Hc, E.
Qed.

Lemma returns_anything {A} (c : M A) : returns c (fun _ => True).
Proof. intros w a w' _. exact I. Qed.

Lemma returns_shaped m sel op :
  returns (shaped m None (Some sel) op)
          (fun v => exists t row, v = project t m (Select sel) row).
Proof.
  intros w v w'. unfold shaped, write. cbn [selection].
  destruct (op (tables w)) as [e|[row t']]; [discriminate|].
  intros [= <- _]. eauto.
Qed.

Lemma returns_findUnique m id sel :
  returns (prisma_findUnique m id None (Some sel))
          (fun found => forall v, found = Some v ->
                                  exists t row, v = project t m (Select sel) row).
Proof.
  intros w found w'. unfold prisma_findUnique, read. cbn [selection].
  intros [= <- _] v Hv. destruct (findUnique m id (tables w)) as [row|]; [|discriminate].
  injection Hv as <-. eauto.
Qed.

Lemma discreet_try_catch (c : M Response) r w :
  returns c discreet -> discreet r -> discreet (try_catch c r w).1.
Proof.
  intros Hc Hr. unfold try_catch.
  destruct (c w) as [[e|a] w'] eqn:E; [exact Hr|]. eapply Hc, E.
Qed.

Lemma discreet_user st t row :
  discreet (json st (project t User (Select user_select) row)).
Proof. apply user_select_hides_password. Qed.

(** C10: the selection of the user handlers does not list [password], and
    no answer of a user handler (list, create, fetch, update, delete) has a
    [password] property anywhere in its body. *)
Theorem user_responses_hide_password env v req w :
  obj_get "password" user_select = None /\
  match body (serve env User v req w).1 with
  | Some b => mentions "password" b = false
  | None => True
  end.
Proof.
  split; [reflexivity|].
  change (discreet (serve env User v req w).1).
  replace (serve env User v req w).1 with (route env User v req w).1
    by (unfold serve; now destruct (route env User v req w)).
  destruct v; cbn [route].
  - destruct (list_route_cases env User ["name"; "email"; "role"; "gender"]
                (Some [("university", All)]) (Some user_select)
                "An error occurred while fetching users" req w)
      as [H|(sel & rs & total & Hsel & _)]; [|discriminate].
    unfold list_users. rewrite H. reflexivity.
  - apply discreet_try_catch; [|reflexivity].
    eapply returns_bind; [apply returns_anything|]. intros hashedPassword _.
    eapply returns_bind.
    + eapply returns_bind; [apply returns_anything|]. intros now _.
      apply returns_shaped.
    + intros user (t & row & ->). apply returns_ret, discreet_user.
  - apply discreet_try_catch; [|reflexivity].
    eapply returns_bind; [apply returns_findUnique|].
    intros [v|] Hv; apply returns_ret; [|reflexivity].
    destruct (Hv v eq_refl) as (t & row & ->). apply discreet_user.
  - apply discreet_try_catch; [|reflexivity].
    eapply returns_bind.
    + eapply returns_bind; [apply returns_anything|]. intros now _.
      apply returns_shaped.
    + intros user (t & row & ->). apply returns_ret, discreet_user.
  - apply discreet_try_catch; [|reflexivity].
    eapply returns_bind; [apply returns_anything|]. intros _ _.
    apply returns_ret. exact I.
Qed.

(** A stored user does carry the hash; the answers do not. *)
Example password_is_stored_not_returned :
  let req := request "" no_options
               [("name", "Ann"); ("email", "ann@alpha.example"); ("password", "secret");
                ("gender", "FEMALE")] in
  (exists u, users (tables (serve sample_env User Create req season).2) !! "id4" = Some u /\
             u !! "password" = Some (SStr "$2b$10$secret")) /\
  status (serve sample_env User Create req season).1 = 201.
Proof. vm_compute. split; [eexists; split; reflexivity|reflexivity]. Qed.

End Handlers.

(* ===================================================================== *)
(** * Further properties of the builder and the handlers *)
(* ===================================================================== *)

Section Conduct.
Import JS Schema Prisma QueryUtils Routes Spec Samples Conduct.
Local Open Scope handler_scope.

(** ** Numeric parameters *)


(** ** Reads leave the world alone *)

Lemma list_route_world env m fields include select msg req w :
  (list_route env m fields include select msg req w).2 = w.
Proof.
  unfold list_route, try_catch, bind, prisma_findMany, prisma_count, read, ret.
  destruct (selection include select); [reflexivity|].
  destruct (findMany _ _ _ _); [reflexivity|].
  now destruct (count _ _ _).
Qed.

Lemma fetch_route_world m include select missing msg req w :
  (fetch_route m include select missing msg req w).2 = w.
Proof.
  unfold fetch_route, try_catch, bind, prisma_findUnique, read, ret.
  destruct (selection include select); [reflexivity|].
  now destruct (findUnique _ _ _).
Qed.

(** X2: the list and fetch handlers of every resource, in both revisions of
    the sport routes, change nothing: tables, clock and channel are as
    before, whatever the answer. *)
Theorem reads_change_nothing env m req w :
  (route env m List req w).2 = w /\
  (route env m Fetch req w).2 = w /\
  (EarlierSportRoutes.list_sports env req w).2 = w /\
  (EarlierSportRoutes.fetch_sport req w).2 = w.
Proof.
  repeat split.
  - destruct m; apply list_route_world.
  - destruct m; apply fetch_route_world.
  - apply list_route_world.
  - apply fetch_route_world.
Qed.

(** ** Who speaks on the channel *)

Lemma quiet_ret {A} (a : A) : quiet (ret a).
Proof. intros w. reflexivity. Qed.

Lemma quiet_throw {A} e : quiet (@throw A e).
Proof. intros w. reflexivity. Qed.

Lemma quiet_bind {A B} (c : M A) (k : A -> M B) :
  quiet c -> (forall a, quiet (k a)) -> quiet (bind c k).
Proof.
  intros Hc Hk w. unfold bind. specialize (Hc w).
  destruct (c w) as [[e|a] w1]; [exact Hc|]. rewrite Hk. exact Hc.
Qed.

Lemma quiet_read {A} (op : Tables -> PrismaError + A) : quiet (read op).
Proof. intros w. unfold read. now destruct (op (tables w)). Qed.

Lemma quiet_write {A} (op : Tables -> PrismaError + A * Tables) : quiet (write op).
Proof. intros w. unfold write. now destruct (op (tables w)) as [e|[a t']]. Qed.

Lemma quiet_create env m data include select :
  quiet (prisma_create env m data include select).
Proof. apply quiet_bind; [intros w; reflexivity|]. intros now. apply quiet_write. Qed.

Lemma quiet_update m id data include select :
  quiet (prisma_update m id data include select).
Proof. apply quiet_bind; [intros w; reflexivity|]. intros now. apply quiet_write. Qed.

Lemma quiet_image_url env req init : quiet (image_url env req init).
Proof. intros w. now destruct (image_url_cases env req init w) as [->|[v ->]]. Qed.

Lemma quiet_hashed env req : quiet (hashed env req).
Proof. intros w. unfold hashed. now destruct (req_body req !! "password"). Qed.

Lemma quiet_try_catch (c : M Response) r w :
  quiet c -> emitted (try_catch c r w).2 = emitted w.
Proof.
  intros Hc. unfold try_catch. specialize (Hc w). now destruct (c w) as [[e|a] w'].
Qed.

Ltac hush :=
  apply quiet_try_catch;
  repeat first
    [ apply quiet_ret | apply quiet_image_url | apply quiet_hashed
    | apply quiet_create | apply quiet_update | apply quiet_write
    | apply quiet_bind; [|intros ?] ].

Lemma list_is_quiet env m req w : emitted (route env m List req w).2 = emitted w.
Proof. apply (f_equal emitted). destruct m; apply list_route_world. Qed.

Lemma fetch_is_quiet env m req w : emitted (route env m Fetch req w).2 = emitted w.
Proof. apply (f_equal emitted). destruct m; apply fetch_route_world. Qed.

(** The handlers of universities, sports, fixtures and users never emit. *)
Lemma others_are_quiet env m v req w :
  m <> Result -> emitted (route env m v req w).2 = emitted w.
Proof.
  intros Hm. destruct v.
  - apply list_is_quiet.
  - destruct m; cbn [route]; try congruence; hush.
  - apply fetch_is_quiet.
  - destruct m; cbn [route]; try congruence; hush.
  - destruct m; cbn [route]; try congruence;
      unfold delete_university, delete_sport, delete_fixture, delete_user,
        delete_route, prisma_delete; hush.
Qed.

(** X3: a request makes at most one event, appended to those already sent;
    only the create, update and delete handlers of results make one. *)
Theorem at_most_one_event env m v req w :
  exists evs,
    emitted (route env m v req w).2 = (emitted w ++ evs)%list /\
    (length evs <= 1)%nat /\
    (m <> Result -> evs = []) /\
    (v = List \/ v = Fetch -> evs = []).
Proof.
  assert (Hnone : emitted (route env m v req w).2 = emitted w ->
                  exists evs,
                    emitted (route env m v req w).2 = (emitted w ++ evs)%list /\
                    (length evs <= 1)%nat /\
                    (m <> Result -> evs = []) /\
                    (v = List \/ v = Fetch -> evs = [])).
  { intros H. exists []. rewrite app_nil_r. repeat split; auto. }
  assert (Hone : forall ev,
             emitted (route env m v req w).2 = (emitted w ++ [ev])%list ->
             m = Result -> v <> List -> v <> Fetch ->
             exists evs,
               emitted (route env m v req w).2 = (emitted w ++ evs)%list /\
               (length evs <= 1)%nat /\
               (m <> Result -> evs = []) /\
               (v = List \/ v = Fetch -> evs = [])).
  { intros ev H Hm Hl Hf. exists [ev]. repeat split; auto; [congruence|].
    intros [?|?]; congruence. }
  destruct (decide (m = Result)) as [->|Hm]; [|now apply Hnone, others_are_quiet].
  destruct v; cbn [route] in *.
  - apply Hnone. exact (list_is_quiet env Result req w).
  - destruct (create_result env req w) as [r w'] eqn:H.
    destruct (create_result_spec env req w r w' H)
      as [(_ & He & _)|(data & row & _ & _ & He & _)];
      [apply Hnone, He|eapply Hone; [apply He|..]; congruence].
  - apply Hnone. exact (fetch_is_quiet env Result req w).
  - destruct (update_result env req w) as [r w'] eqn:H.
    destruct (update_result_spec env req w r w' H)
      as [(_ & He & _)|(data & row & _ & He & _)];
      [apply Hnone, He|eapply Hone; [apply He|..]; congruence].
  - destruct (delete_result env req w) as [r w'] eqn:H.
    destruct (delete_result_spec env req w r w' H)
      as [(_ & He & _)|(row & _ & He & _)];
      [apply Hnone, He|eapply Hone; [apply He|..]; congruence].
Qed.

(** ** What a write stores *)

Lemma created_in_table m data id now t row t' :
  create m data id now t = inr (row, t') ->
  create_row id now m data = Some row /\ table m t !! id = None /\
  check_constraints m id row t = None /\ replaced m id row t t'.
Proof.
  unfold create, replaced. destruct (create_row id now m data) as [r|]; [|discriminate].
  destruct (table m t !! id); [discriminate|].
  destruct (check_constraints m id r t) eqn:Hc; [discriminate|].
  intros [= <- <-]. repeat split. exact Hc.
Qed.

Lemma updated_in_table m id data now t row t' :
  update m id data now t = inr (row, t') ->
  exists patch old,
    update_patch now m data = Some patch /\ table m t !! id = Some old /\
    row = patch ∪ old /\ check_constraints m id row t = None /\
    replaced m id row t t'.
Proof.
  unfold update, replaced. destruct (update_patch now m data) as [patch|]; [|discriminate].
  destruct (table m t !! id) as [old|]; [|discriminate].
  destruct (check_constraints m id (patch ∪ old) t) eqn:Hc; [discriminate|].
  intros [= <- <-]. exists patch, old. repeat split. exact Hc.
Qed.

Lemma deleted_from_table m id t row t' :
  delete m id t = inr (row, t') -> table m t' !! id = None.
Proof.
  unfold delete. destruct (table m t !! id); [|discriminate].
  destruct (List.find _ _); [discriminate|]. intros [= _ <-].
  rewrite table_set_table. apply lookup_delete_eq.
Qed.

(** Every column of a created row has passed its check. *)
Lemma create_row_needs id now data (fs : list Field) (row : Row) :
  foldr (fun f acc =>
           match acc, create_cell id now f (arg data (fname f)) with
           | Some r, Some c => Some (<[fname f := c]> r)
           | _, _ => None
           end) (Some ∅) fs = Some row ->
  forall f, In f fs -> is_Some (create_cell id now f (arg data (fname f))).
Proof.
  revert row. induction fs as [|f0 fs IH]; intros row Hrow f Hin; [destruct Hin|].
  cbn [foldr] in Hrow.
  destruct (foldr _ _ fs) as [r|] eqn:Hr; [|discriminate].
  destruct (create_cell id now f0 (arg data (fname f0))) as [c|] eqn:Hc; [|discriminate].
  destruct Hin as [->|Hin]; [rewrite Hc; eauto|]. eapply IH; eauto.
Qed.

Lemma update_patch_needs now data (fs : list Field) (patch : Row) :
  foldr (fun f acc =>
           match acc, update_cell now f (arg data (fname f)) with
           | Some r, Some (Some c) => Some (<[fname f := c]> r)
           | Some r, Some None => Some r
           | _, _ => None
           end) (Some ∅) fs = Some patch ->
  forall f, In f fs -> is_Some (update_cell now f (arg data (fname f))).
Proof.
  revert patch. induction fs as [|f0 fs IH]; intros patch Hp f Hin; [destruct Hin|].
  cbn [foldr] in Hp.
  destruct (foldr _ _ fs) as [r|] eqn:Hr; [|discriminate].
  destruct (update_cell now f0 (arg data (fname f0))) as [c|] eqn:Hc; [|discriminate].
  destruct Hin as [->|Hin]; [rewrite Hc; eauto|]. eapply IH; eauto.
Qed.

(** A column an update is not given, other than [@updatedAt], is not in the
    patch. *)
Lemma update_patch_skips now data (fs : list Field) (patch : Row) k :
  foldr (fun f acc =>
           match acc, update_cell now f (arg data (fname f)) with
           | Some r, Some (Some c) => Some (<[fname f := c]> r)
           | Some r, Some None => Some r
           | _, _ => None
           end) (Some ∅) fs = Some patch ->
  arg data k = VUndefined ->
  (forall f, In f fs -> fname f = k -> fkind f <> KUpdatedAt) ->
  patch !! k = None.
Proof.
  intros Hp Hk Hkind. revert patch Hp.
  induction fs as [|f0 fs IH]; intros patch Hp.
  - injection Hp as <-. apply lookup_empty.
  - cbn [foldr] in Hp.
    destruct (foldr _ _ fs) as [r|] eqn:Hr; [|discriminate].
    specialize (IH (fun f Hin => Hkind f (or_intror Hin)) r eq_refl).
    destruct (update_cell now f0 (arg data (fname f0))) as [[c|]|] eqn:Hc;
      [|now injection Hp as <-|discriminate].
    injection Hp as <-. rewrite lookup_insert_ne; [exact IH|].
    intros Heq. unfold update_cell in Hc. rewrite Heq, Hk in Hc.
    pose proof (Hkind f0 (or_introl eq_refl) Heq) as Hnot.
    destruct (fkind f0); congruence.
Qed.

Lemma update_keeps_column m id data now t row t' k :
  update m id data now t = inr (row, t') ->
  arg data k = VUndefined ->
  (forall f, In f (fields m) -> fname f = k -> fkind f <> KUpdatedAt) ->
  exists old, table m t !! id = Some old /\ replaced m id row t t' /\
              row !! k = old !! k.
Proof.
  intros Hu Hk Hkind.
  destruct (updated_in_table _ _ _ _ _ _ _ Hu) as (patch & old & Hp & Hold & -> & _ & Hr).
  exists old. repeat split; [exact Hold|exact Hr|].
  rewrite lookup_union_r; [reflexivity|].
  exact (update_patch_skips now data (fields m) patch k Hp Hk Hkind).
Qed.

Lemma field_names_differ m : NoDup (map fname (fields m)).
Proof. destruct m; apply (bool_decide_unpack _); vm_compute; reflexivity. Qed.

Lemma update_patch_stamps now data (fs : list Field) (patch : Row) f :
  NoDup (map fname fs) ->
  foldr (fun f acc =>
           match acc, update_cell now f (arg data (fname f)) with
           | Some r, Some (Some c) => Some (<[fname f := c]> r)
           | Some r, Some None => Some r
           | _, _ => None
           end) (Some ∅) fs = Some patch ->
  In f fs -> fkind f = KUpdatedAt -> patch !! fname f = Some (SDate now).
Proof.
  intros Hnd Hp Hin Hkind. revert patch Hp.
  induction fs as [|f0 fs IH]; intros patch Hp; [destruct Hin|].
  cbn [map] in Hnd. apply NoDup_cons in Hnd as [Hfresh Hnd].
  cbn [foldr] in Hp. destruct (foldr _ _ fs) as [r|] eqn:Hr; [|discriminate].
  destruct Hin as [->|Hin].
  - unfold update_cell in Hp. rewrite Hkind in Hp. injection Hp as <-.
    apply lookup_insert_eq.
  - specialize (IH Hnd Hin r eq_refl).
    assert (fname f0 <> fname f).
    { intros Heq. apply Hfresh. rewrite Heq. apply list_elem_of_In, in_map, Hin. }
    destruct (update_cell now f0 (arg data (fname f0))) as [[c|]|];
      [|now injection Hp as <-|discriminate].
    injection Hp as <-. now rewrite lookup_insert_ne.
Qed.

Lemma update_stamps m id data now t row t' :
  update m id data now t = inr (row, t') -> row !! "updatedAt" = Some (SDate now).
Proof.
  intros Hu.
  destruct (updated_in_table _ _ _ _ _ _ _ Hu) as (patch & old & Hp & _ & -> & _ & _).
  apply lookup_union_Some_l.
  apply (update_patch_stamps now data (fields m) patch
           {| fname := "updatedAt"; ftype := TDateTime; fkind := KUpdatedAt |});
    [apply field_names_differ|exact Hp| |reflexivity].
  destruct m; cbn; tauto.
Qed.

(** ** The three writes, as the handlers see them *)

Lemma prisma_create_cases env m data include select w :
  (exists e, prisma_create env m data include select w = (inl e, w)) \/
  exists sel row t',
    selection include select = inr sel /\
    create m data (uuid env (clock w)) (Z.of_nat (clock w)) (tables w) = inr (row, t') /\
    prisma_create env m data include select w
    = (inr (project t' m sel row),
       {| tables := t'; clock := clock w; emitted := emitted w |}).
Proof.
  unfold prisma_create, bind, the_clock, shaped, write.
  destruct (selection include select) as [e|sel]; [left; eauto|].
  destruct (create _ _ _ _ _) as [e|[row t']]; [left; eauto|right].
  exists sel, row, t'. repeat split.
Qed.

Lemma prisma_update_cases m id data include select w :
  (exists e, prisma_update m id data include select w = (inl e, w)) \/
  exists sel row t',
    selection include select = inr sel /\
    update m id data (Z.of_nat (clock w)) (tables w) = inr (row, t') /\
    prisma_update m id data include select w
    = (inr (project t' m sel row),
       {| tables := t'; clock := clock w; emitted := emitted w |}).
Proof.
  unfold prisma_update, bind, the_clock, shaped, write.
  destruct (selection include select) as [e|sel]; [left; eauto|].
  destruct (update _ _ _ _ _) as [e|[row t']]; [left; eauto|right].
  exists sel, row, t'. repeat split.
Qed.

Lemma prisma_delete_cases m id w :
  (exists e, prisma_delete m id w = (inl e, w)) \/
  exists row t',
    delete m id (tables w) = inr (row, t') /\
    prisma_delete m id w
    = (inr tt, {| tables := t'; clock := clock w; emitted := emitted w |}).
Proof.
  unfold prisma_delete, write.
  destruct (delete m id (tables w)) as [e|[row t']]; [left; eauto|right; eauto].
Qed.

Lemma hashed_cases env req w :
  (req_body req !! "password" = None /\ hashed env req w = (inl Failure, w)) \/
  exists p, req_body req !! "password" = Some p /\
            hashed env req w = (inr (VStr (bcrypt_hash env p)), w).
Proof. unfold hashed. destruct (req_body req !! "password"); [right|left]; eauto. Qed.

(** A handler that starts with a step that leaves the world alone. *)
Lemma after_pure {A} (c : M A) (k : A -> M Response) r w (Q : Tables -> Prop) :
  (c w = (inl Failure, w) \/ exists v, c w = (inr v, w)) ->
  Q (tables w) ->
  (forall v, Q (tables (try_catch (k v) r w).2)) ->
  Q (tables (try_catch (bind c k) r w).2).
Proof.
  intros [H|[v H]] Hw Hk.
  - unfold try_catch, bind. now rewrite H.
  - specialize (Hk v). unfold try_catch, bind in *. now rewrite H.
Qed.

Lemma written_by_update m id include select data (tail : value -> M Response) r w :
  (forall v w1, tables (tail v w1).2 = tables w1) ->
  tables (try_catch (bind (prisma_update m id data include select) tail) r w).2
    = tables w \/
  exists row,
    update m id data (Z.of_nat (clock w)) (tables w)
    = inr (row, tables (try_catch (bind (prisma_update m id data include select) tail)
                          r w).2).
Proof.
  intros Htail. rewrite tables_try_catch, tables_bind_tail by exact Htail.
  destruct (prisma_update_cases m id data include select w)
    as [[e ->]|(sel & row & t' & _ & Hu & ->)]; [now left|right; eauto].
Qed.

(** X4: an update handler either leaves the tables as they are or replaces
    the one row it names; the new row keeps the columns the handler never
    writes (the id and the creation time everywhere, the password of a
    user, the fixture of a result, the type of a sport; in the earlier
    revision of the sport routes the university of a sport) and carries the
    time of the update. *)
Theorem updates_keep_unwritten_columns env m req w :
  let id := params_id req in
  (tables (route env m Update req w).2 = tables w \/
   exists old new,
     table m (tables w) !! id = Some old /\
     replaced m id new (tables w) (tables (route env m Update req w).2) /\
     (forall k, In k (kept m) -> new !! k = old !! k) /\
     new !! "updatedAt" = Some (SDate (Z.of_nat (clock w)))) /\
  (tables (EarlierSportRoutes.update_sport req w).2 = tables w \/
   exists old new,
     sports (tables w) !! id = Some old /\
     replaced Sport id new (tables w) (tables (EarlierSportRoutes.update_sport req w).2) /\
     (forall k, In k ["id"; "universityId"; "createdAt"] -> new !! k = old !! k) /\
     new !! "updatedAt" = Some (SDate (Z.of_nat (clock w)))).
Proof.
  cbn zeta.
  assert (Hkeep : forall m' (ks : list string) data row t',
             update m' (params_id req) data (Z.of_nat (clock w)) (tables w) = inr (row, t') ->
             (forall k, In k ks -> arg data k = VUndefined) ->
             (forall k f, In k ks -> In f (fields m') -> fname f = k ->
                          fkind f <> KUpdatedAt) ->
             exists old new,
               table m' (tables w) !! params_id req = Some old /\
               replaced m' (params_id req) new (tables w) t' /\
               (forall k, In k ks -> new !! k = old !! k) /\
               new !! "updatedAt" = Some (SDate (Z.of_nat (clock w)))).
  { intros m' ks data row t' Hu Hundef Hkind.
    destruct (updated_in_table _ _ _ _ _ _ _ Hu) as (patch & old & _ & Hold & _ & _ & Hr).
    exists old, row. repeat split; [exact Hold|exact Hr| |exact (update_stamps _ _ _ _ _ _ _ Hu)].
    intros k Hk.
    destruct (update_keeps_column _ _ _ _ _ _ _ k Hu (Hundef k Hk)
                (fun f Hf Hn => Hkind k f Hk Hf Hn)) as (old' & Hold' & _ & Heq).
    congruence. }
  assert (Hkinds : forall m' ks,
             (ks = kept m' \/ (m' = Sport /\ ks = ["id"; "universityId"; "createdAt"])) ->
             forall k f, In k ks -> In f (fields m') -> fname f = k ->
                         fkind f <> KUpdatedAt).
  { intros m' ks Hks k f Hk Hf Hn Hkind.
    assert (Hup : fname f = "updatedAt").
    { destruct m'; cbn in Hf;
        repeat (destruct Hf as [<-|Hf]; [try discriminate Hkind; reflexivity|]);
        destruct Hf. }
    rewrite Hup in Hn. subst k.
    destruct Hks as [->|[-> ->]]; [destruct m'|]; cbn in Hk;
      repeat (destruct Hk as [Hk|Hk]; [discriminate Hk|]); destruct Hk. }
  pose (Q := fun m' (ks : list string) t' =>
              t' = tables w \/
              exists old new,
                table m' (tables w) !! params_id req = Some old /\
                replaced m' (params_id req) new (tables w) t' /\
                (forall k, In k ks -> new !! k = old !! k) /\
                new !! "updatedAt" = Some (SDate (Z.of_nat (clock w)))).
  assert (Hdone : forall m' ks include select data tail r,
             (forall v w1, tables (tail v w1).2 = tables w1) ->
             (ks = kept m' \/ (m' = Sport /\ ks = ["id"; "universityId"; "createdAt"])) ->
             (forall k, In k ks -> arg data k = VUndefined) ->
             Q m' ks (tables (try_catch
                                (bind (prisma_update m' (params_id req) data include select)
                                      tail) r w).2)).
  { intros m' ks include select data tail r Htail Hks Hundef.
    destruct (written_by_update m' (params_id req) include select data tail r w Htail)
      as [H|[row H]]; [now left|right].
    eapply Hkeep; [exact H|exact Hundef|now apply Hkinds]. }
  split.
  - change (Q m (kept m) (tables (route env m Update req w).2)).
    destruct m; cbn [route].
    + unfold update_university.
      apply after_pure; [apply image_url_cases|now left|]. intros imageUrl.
      apply Hdone; [reflexivity|now left|].
      intros k Hk. cbn in Hk. now destruct Hk as [<-|[<-|[]]].
    + apply Hdone; [reflexivity|now left|].
      intros k Hk. cbn in Hk. now destruct Hk as [<-|[<-|[<-|[]]]].
    + apply Hdone; [reflexivity|now left|].
      intros k Hk. cbn in Hk. now destruct Hk as [<-|[<-|[]]].
    + unfold update_result.
      apply after_pure; [apply image_url_cases|now left|]. intros imageUrl.
      apply after_pure; [apply scorers_cases|now left|]. intros hs.
      apply after_pure; [apply scorers_cases|now left|]. intros aws.
      apply Hdone; [intros; apply tables_emit_ret|now left|].
      intros k Hk. cbn in Hk. now destruct Hk as [<-|[<-|[<-|[]]]].
    + apply Hdone; [reflexivity|now left|].
      intros k Hk. cbn in Hk. now destruct Hk as [<-|[<-|[<-|[]]]].
  - change (Q Sport ["id"; "universityId"; "createdAt"]
              (tables (EarlierSportRoutes.update_sport req w).2)).
    apply Hdone; [reflexivity|right; split; reflexivity|].
    intros k Hk. cbn in Hk. now destruct Hk as [<-|[<-|[<-|[]]]].
Qed.

(** ** Creating a user *)

Lemma required_string id now f (body_value : value) c :
  fkind f = KRequired -> ftype f = TString ->
  create_cell id now f body_value = Some c ->
  exists s, body_value = VStr s /\ c = SStr s.
Proof.
  unfold create_cell. intros -> Hty. rewrite Hty.
  destruct body_value as [| | |s| | |]; try discriminate.
  intros [= <-]. eauto.
Qed.

(** ** Writing, then fetching *)

Lemma fetch_finds m include select missing msg id (row : Row) sel w :
  selection include select = inr sel -> table m (tables w) !! id = Some row ->
  (fetch_route m include select missing msg (get_by id) w).1
  = json 200 (project (tables w) m sel row).
Proof.
  intros Hsel Hrow.
  unfold fetch_route, try_catch, bind, prisma_findUnique, read, findUnique, ret.
  cbn [get_by params_id]. now rewrite Hsel, Hrow.
Qed.

Lemma fetch_after_create env m data include select missing msg w v w1 w2 :
  prisma_create env m data include select w = (inr v, w1) ->
  tables w2 = tables w1 ->
  (fetch_route m include select missing msg (get_by (uuid env (clock w))) w2).1
  = json 200 v.
Proof.
  intros Hc Ht.
  destruct (prisma_create_cases env m data include select w)
    as [[e He]|(sel & row & t' & Hsel & Hcr & Hret)]; [congruence|].
  rewrite Hret in Hc. injection Hc as <- <-. cbn [tables] in Ht.
  destruct (created_in_table _ _ _ _ _ _ _ Hcr) as (_ & _ & _ & Hrep).
  rewrite (fetch_finds m include select missing msg _ row sel w2 Hsel), Ht; [reflexivity|].
  rewrite Ht, Hrep, table_set_table. apply lookup_insert_eq.
Qed.

Lemma fetch_after_update m id data include select missing msg w v w1 w2 :
  prisma_update m id data include select w = (inr v, w1) ->
  tables w2 = tables w1 ->
  (fetch_route m include select missing msg (get_by id) w2).1 = json 200 v.
Proof.
  intros Hc Ht.
  destruct (prisma_update_cases m id data include select w)
    as [[e He]|(sel & row & t' & Hsel & Hup & Hret)]; [congruence|].
  rewrite Hret in Hc. injection Hc as <- <-. cbn [tables] in Ht.
  destruct (updated_in_table _ _ _ _ _ _ _ Hup) as (_ & _ & _ & _ & _ & _ & Hrep).
  rewrite (fetch_finds m include select missing msg _ row sel w2 Hsel), Ht; [reflexivity|].
  rewrite Ht, Hrep, table_set_table. apply lookup_insert_eq.
Qed.

(** What a handler made of pure steps, one write and a tail answers. *)
Lemma answer_after_pure {A} (c : M A) (k : A -> M Response) r w
    (Q : Response * World -> Prop) :
  (c w = (inl Failure, w) \/ exists v, c w = (inr v, w)) ->
  Q (r, w) ->
  (forall v, c w = (inr v, w) -> Q (try_catch (k v) r w)) ->
  Q (try_catch (bind c k) r w).
Proof.
  intros [H|[v H]] Hw Hk.
  - unfold try_catch, bind. now rewrite H.
  - specialize (Hk v H). unfold try_catch, bind in *. now rewrite H.
Qed.

Lemma answer_of_write (c : M value) (tail : value -> M Response) r w
    (Q : Response * World -> Prop) :
  ((exists e, c w = (inl e, w)) -> Q (r, w)) ->
  (forall v w1, c w = (inr v, w1) -> Q (try_catch (tail v) r w1)) ->
  (forall e w1, c w = (inl e, w1) -> w1 = w) ->
  Q (try_catch (bind c tail) r w).
Proof.
  intros Herr Hok Hsame. unfold try_catch, bind in *.
  destruct (c w) as [[e|v] w1] eqn:E.
  - rewrite (Hsame e w1 eq_refl) in *. apply Herr. eauto.
  - now apply Hok.
Qed.

Lemma create_fails_in_place env m data include select w e w1 :
  prisma_create env m data include select w = (inl e, w1) -> w1 = w.
Proof.
  destruct (prisma_create_cases env m data include select w)
    as [[e' ->]|(sel & row & t' & _ & _ & ->)]; congruence.
Qed.

Lemma update_fails_in_place m id data include select w e w1 :
  prisma_update m id data include select w = (inl e, w1) -> w1 = w.
Proof.
  destruct (prisma_update_cases m id data include select w)
    as [[e' ->]|(sel & row & t' & _ & _ & ->)]; congruence.
Qed.

Lemma emit_then_answer env name payload (r err : Response) w :
  status err = 500 ->
  tables (try_catch (emit env name payload ;;; ret r) err w).2 = tables w /\
  ((try_catch (emit env name payload ;;; ret r) err w).1 = r \/
   status (try_catch (emit env name payload ;;; ret r) err w).1 = 500).
Proof.
  intros Herr. unfold try_catch, bind, emit, ret.
  destruct (emit_ok env _); cbn; auto.
Qed.

(** X5: [POST /api/users] either answers 500 and changes nothing, or
    answers 201 having stored exactly one new row under a fresh id: the
    request had a name, an email and a password, the name and the email are
    stored as sent, and the password column holds the bcrypt hash of the
    password. *)
Theorem user_is_stored_with_hash env req w :
  let id := uuid env (clock w) in
  create_user env req w
    = (error_json 500 "An error occurred while creating the user", w) \/
  exists n e p u v,
    req_body req !! "name" = Some n /\ req_body req !! "email" = Some e /\
    req_body req !! "password" = Some p /\
    (create_user env req w).1 = json 201 v /\
    users (tables w) !! id = None /\
    replaced User id u (tables w) (tables (create_user env req w).2) /\
    u !! "id" = Some (SStr id) /\ u !! "name" = Some (SStr n) /\
    u !! "email" = Some (SStr e) /\
    u !! "password" = Some (SStr (bcrypt_hash env p)).
Proof.
  cbn zeta. unfold create_user.
  apply (answer_after_pure _ _ _ w
           (fun a =>
              a = (error_json 500 "An error occurred while creating the user", w) \/
              exists n e p u v,
                req_body req !! "name" = Some n /\ req_body req !! "email" = Some e /\
                req_body req !! "password" = Some p /\
                a.1 = json 201 v /\
                users (tables w) !! uuid env (clock w) = None /\
                replaced User (uuid env (clock w)) u (tables w) (tables a.2) /\
                u !! "id" = Some (SStr (uuid env (clock w))) /\
                u !! "name" = Some (SStr n) /\ u !! "email" = Some (SStr e) /\
                u !! "password" = Some (SStr (bcrypt_hash env p)))).
  { destruct (hashed_cases env req w) as [[_ ->]|(p & _ & ->)]; eauto. }
  { now left. }
  intros hashedPassword Hh.
  destruct (hashed_cases env req w) as [[_ Hno]|(p & Hp & Hyes)]; [congruence|].
  rewrite Hyes in Hh. injection Hh as <-.
  apply answer_of_write; [now left| |apply create_fails_in_place].
  intros v w1 Hv. right.
  destruct (prisma_create_cases env User
              [("name", prop req "name"); ("email", prop req "email");
               ("password", VStr (bcrypt_hash env p)); ("role", prop req "role");
               ("gender", prop req "gender"); ("universityId", prop req "universityId")]
              None (Some user_select) w)
    as [[err He]|(sel & u & t' & _ & Hc & Hret)]; [congruence|].
  rewrite Hret in Hv. injection Hv as <- <-.
  destruct (created_in_table _ _ _ _ _ _ _ Hc) as (Hrow & Hfresh & _ & Hrep).
  pose proof (create_row_cells _ _ _ (fields User) u (field_names_differ User) Hrow)
    as Hcell.
  pose proof (create_row_needs _ _ _ (fields User) u Hrow) as Hneed.
  assert (Hstr : forall k, In k ["name"; "email"; "password"] ->
            exists x, arg [("name", prop req "name"); ("email", prop req "email");
                           ("password", VStr (bcrypt_hash env p));
                           ("role", prop req "role"); ("gender", prop req "gender");
                           ("universityId", prop req "universityId")] k = VStr x /\
                      u !! k = Some (SStr x)).
  { intros k Hk.
    pose (f := {| fname := k; ftype := TString; fkind := KRequired |}).
    assert (Hin : In f (fields User)).
    { cbn in Hk |- *. destruct Hk as [<-|[<-|[<-|[]]]]; tauto. }
    destruct (Hneed f Hin) as [c Hc'].
    destruct (required_string _ _ f _ c eq_refl eq_refl Hc') as (x & Hx & ->).
    exists x. split; [exact Hx|]. exact (eq_trans (Hcell f Hin) Hc'). }
  destruct (Hstr "name" ltac:(cbn; tauto)) as (n & Hn & Hun).
  destruct (Hstr "email" ltac:(cbn; tauto)) as (e & He & Hue).
  destruct (Hstr "password" ltac:(cbn; tauto)) as (h & Hh & Huh).
  cbn in Hn, He, Hh. unfold prop in Hn, He.
  destruct (req_body req !! "name") as [n'|]; [|discriminate].
  destruct (req_body req !! "email") as [e'|]; [|discriminate].
  injection Hn as ->. injection He as ->. injection Hh as <-.
  exists n, e, p, u, (project t' User sel u). cbn [fst snd tables].
  repeat split; try assumption.
  exact (Hcell {| fname := "id"; ftype := TString; fkind := KId |} ltac:(cbn; tauto)).
Qed.

(** X6: for universities, results and users, whose create and fetch
    handlers select the same properties: when the create handler does not
    answer 500, it answers 201 with a body, and fetching the new id next
    answers 200 with that same body. *)
Theorem created_is_what_fetch_answers env req w :
  let id := uuid env (clock w) in
  (status (create_university env req w).1 = 500 \/
   exists v, (create_university env req w).1 = json 201 v /\
             (fetch_university (get_by id) (create_university env req w).2).1 = json 200 v) /\
  (status (create_result env req w).1 = 500 \/
   exists v, (create_result env req w).1 = json 201 v /\
             (fetch_result (get_by id) (create_result env req w).2).1 = json 200 v) /\
  (status (create_user env req w).1 = 500 \/
   exists v, (create_user env req w).1 = json 201 v /\
             (fetch_user (get_by id) (create_user env req w).2).1 = json 200 v).
Proof.
  cbn zeta. repeat split.
  - unfold create_university, fetch_university.
    apply (answer_after_pure _ _ _ w
             (fun a => status a.1 = 500 \/
                       exists v, a.1 = json 201 v /\
                                 (fetch_route _ _ _ _ _ _ a.2).1 = json 200 v));
      [apply image_url_cases|now left|]. intros imageUrl _.
    apply answer_of_write; [now left| |apply create_fails_in_place].
    intros v w1 Hc. right. exists v. split; [reflexivity|].
    eapply fetch_after_create; [exact Hc|reflexivity].
  - unfold create_result, fetch_result.
    apply (answer_after_pure _ _ _ w
             (fun a => status a.1 = 500 \/
                       exists v, a.1 = json 201 v /\
                                 (fetch_route _ _ _ _ _ _ a.2).1 = json 200 v));
      [apply image_url_cases|now left|]. intros imageUrl _.
    apply answer_after_pure; [apply scorers_cases|now left|]. intros hs _.
    apply answer_after_pure; [apply scorers_cases|now left|]. intros aws _.
    apply answer_of_write; [now left| |apply create_fails_in_place].
    intros v w1 Hc. cbn [fst snd].
    destruct (emit_then_answer env "resultUpdate" v (json 201 v)
                (error_json 500 "An error occurred while creating the result") w1
                eq_refl) as [Ht [Hr|Hr]]; [right|now left].
    exists v. split; [exact Hr|].
    eapply fetch_after_create; [exact Hc|exact Ht].
  - unfold create_user, fetch_user.
    apply (answer_after_pure _ _ _ w
             (fun a => status a.1 = 500 \/
                       exists v, a.1 = json 201 v /\
                                 (fetch_route _ _ _ _ _ _ a.2).1 = json 200 v)).
    { destruct (hashed_cases env req w) as [[_ ->]|(p & _ & ->)]; eauto. }
    { now left. }
    intros hashedPassword _.
    apply answer_of_write; [now left| |apply create_fails_in_place].
    intros v w1 Hc. right. exists v. split; [reflexivity|].
    eapply fetch_after_create; [exact Hc|reflexivity].
Qed.

(** X7: likewise for updates of universities, results and users: when the
    update handler does not answer 500, it answers 200 with a body, and
    fetching the same id next answers 200 with that same body. *)
Theorem updated_is_what_fetch_answers env req w :
  let again := get_by (params_id req) in
  (status (update_university env req w).1 = 500 \/
   exists v, (update_university env req w).1 = json 200 v /\
             (fetch_university again (update_university env req w).2).1 = json 200 v) /\
  (status (update_result env req w).1 = 500 \/
   exists v, (update_result env req w).1 = json 200 v /\
             (fetch_result again (update_result env req w).2).1 = json 200 v) /\
  (status (update_user req w).1 = 500 \/
   exists v, (update_user req w).1 = json 200 v /\
             (fetch_user again (update_user req w).2).1 = json 200 v).
Proof.
  cbn zeta. repeat split.
  - unfold update_university, fetch_university.
    apply (answer_after_pure _ _ _ w
             (fun a => status a.1 = 500 \/
                       exists v, a.1 = json 200 v /\
                                 (fetch_route _ _ _ _ _ _ a.2).1 = json 200 v));
      [apply image_url_cases|now left|]. intros imageUrl _.
    apply answer_of_write; [now left| |apply update_fails_in_place].
    intros v w1 Hc. right. exists v. split; [reflexivity|].
    eapply fetch_after_update; [exact Hc|reflexivity].
  - unfold update_result, fetch_result.
    apply (answer_after_pure _ _ _ w
             (fun a => status a.1 = 500 \/
                       exists v, a.1 = json 200 v /\
                                 (fetch_route _ _ _ _ _ _ a.2).1 = json 200 v));
      [apply image_url_cases|now left|]. intros imageUrl _.
    apply answer_after_pure; [apply scorers_cases|now left|]. intros hs _.
    apply answer_after_pure; [apply scorers_cases|now left|]. intros aws _.
    apply answer_of_write; [now left| |apply update_fails_in_place].
    intros v w1 Hc. cbn [fst snd].
    destruct (emit_then_answer env "resultUpdate" v (json 200 v)
                (error_json 500 "An error occurred while updating the result") w1
                eq_refl) as [Ht [Hr|Hr]]; [right|now left].
    exists v. split; [exact Hr|].
    eapply fetch_after_update; [exact Hc|exact Ht].
  - unfold update_user, fetch_user.
    apply (answer_of_write _ _ _ w
             (fun a => status a.1 = 500 \/
                       exists v, a.1 = json 200 v /\
                                 (fetch_route _ _ _ _ _ _ a.2).1 = json 200 v));
      [now left| |apply update_fails_in_place].
    intros v w1 Hc. right. exists v. split; [reflexivity|].
    eapply fetch_after_update; [exact Hc|reflexivity].
Qed.

(** ** Deleting, then asking again *)

Lemma delete_fails_in_place m id w e w1 :
  prisma_delete m id w = (inl e, w1) -> w1 = w.
Proof.
  destruct (prisma_delete_cases m id w) as [[e' ->]|(row & t' & _ & ->)]; congruence.
Qed.

Lemma delete_answers env m req w :
  status (route env m Delete req w).1 = 500 \/
  ((route env m Delete req w).1 = send 204 /\
   table m (tables (route env m Delete req w).2) !! params_id req = None).
Proof.
  destruct (decide (m = Result)) as [->|Hm].
  - cbn [route]. destruct (delete_result env req w) as [r w'] eqn:H. cbn [fst snd].
    destruct (delete_result_spec env req w r w' H)
      as [(_ & _ & Hs)|(row & Hd & _ & [->|[_ Hs]])]; [now left| |now left].
    right. split; [reflexivity|]. exact (deleted_from_table _ _ _ _ _ Hd).
  - assert (H : forall msg,
               status (delete_route m msg req w).1 = 500 \/
               ((delete_route m msg req w).1 = send 204 /\
                table m (tables (delete_route m msg req w).2) !! params_id req = None)).
    { intros msg. unfold delete_route, try_catch, bind, ret.
      destruct (prisma_delete_cases m (params_id req) w)
        as [[e ->]|(row & t' & Hd & ->)]; [now left|right].
      split; [reflexivity|]. exact (deleted_from_table _ _ _ _ _ Hd). }
    destruct m; try congruence; apply H.
Qed.

(** X8: a delete that is answered 204 has removed the row: fetching the
    same id next is answered 404 and deleting it again 500, for every
    resource. *)
Theorem deleted_is_gone env m req w :
  status (route env m Delete req w).1 = 500 \/
  ((route env m Delete req w).1 = send 204 /\
   (exists msg,
      (route env m Fetch req (route env m Delete req w).2).1 = error_json 404 msg) /\
   (exists msg,
      (route env m Delete req (route env m Delete req w).2).1 = error_json 500 msg)).
Proof.
  destruct (delete_answers env m req w) as [H|[Hr Hgone]]; [now left|right].
  split; [exact Hr|].
  destruct (missing_id_responses env m req _ Hgone) as (Hf & _ & Hd). now split.
Qed.

(** ** The envelope of a list *)




(** X10: the user listing never succeeds: it gives [findMany] both
    [include] and [select], which the client refuses, so every
    [GET /api/users] is answered 500. *)
Theorem user_listing_always_fails env req w :
  route env User List req w
  = (error_json 500 "An error occurred while fetching users", w).
Proof. reflexivity. Qed.

(** ** Parameters the storage client refuses *)

Lemma list_route_refused env m fields include select msg req w :
  findMany (order env) m (buildQueryOptions (query req) fields) (tables w)
    = inl ValidationError ->
  list_route env m fields include select msg req w = (error_json 500 msg, w).
Proof.
  intros H. unfold list_route, try_catch, bind, prisma_findMany, read.
  destruct (selection include select); [reflexivity|]. now rewrite H.
Qed.

Lemma list_refused env m req w :
  (forall fields,
     findMany (order env) m (buildQueryOptions (query req) fields) (tables w)
     = inl ValidationError) ->
  exists msg, route env m List req w = (error_json 500 msg, w).
Proof.
  intros H. destruct m; cbn [route]; eexists; apply list_route_refused, H.
Qed.

(** X11: a list request is answered 500 when [page] or [limit] is truthy
    but not read by [parseInt], and when the integers read give a negative
    skip, as page 0 does: the storage client refuses such a window. *)
Theorem bad_window_is_an_error env m req w :
  (param_number (page (query req)) 1 = NaN \/
   param_number (limit (query req)) 10 = NaN \/
   exists p l, param_reads 1 (page (query req)) p /\
               param_reads 10 (limit (query req)) l /\ (p - 1) * l < 0) ->
  exists msg, route env m List req w = (error_json 500 msg, w).
Proof.
  intros H. apply list_refused. intros fields.
  unfold findMany, buildQueryOptions. cbn [skip take].
  destruct H as [->|[->|(p & l & Hp & Hl & Hneg)]].
  - reflexivity.
  - now destruct (param_number _ _).
  - apply param_number_reads in Hp, Hl. rewrite Hp, Hl. cbn [sub mul].
    destruct (Z.leb_spec 0 ((p - 1) * l)); [lia|reflexivity].
Qed.

Lemma bad_window_is_an_error_witness :
  exists msg,
    route sample_env University List (request "" page_zero []) season
    = (error_json 500 msg, season).
Proof.
  apply (bad_window_is_an_error sample_env University (request "" page_zero []) season).
  right. right. exists 0, 10. split; [|split].
  - apply reads_string; [discriminate|reflexivity].
  - apply reads_absent.
  - lia.
Defined.

Lemma valid_where_cons m kv o :
  valid_where m (VObj (kv :: o)) = valid_where m (VObj [kv]) && valid_where m (VObj o).
Proof. destruct kv as [k v]. cbn. now rewrite andb_true_r. Qed.

Lemma valid_where_entry m o key v :
  obj_get key o = Some v -> valid_where m (VObj [(key, v)]) = false ->
  valid_where m (VObj o) = false.
Proof.
  intros Hget Hbad. apply obj_get_In in Hget.
  induction o as [|kv o IH]; [destruct Hget|].
  rewrite valid_where_cons. destruct Hget as [->|Hin].
  - now rewrite Hbad.
  - rewrite IH by exact Hin. apply andb_false_r.
Qed.

Lemma refused_where env m q t :
  valid_where m (VObj (where_ q)) = false ->
  findMany (order env) m q t = inl ValidationError.
Proof.
  intros H. unfold findMany.
  destruct (skip q), (take q); try reflexivity. now rewrite H, andb_false_r.
Qed.

Lemma entry_of_given x f : given x -> exists s, x = Some s /\ entry_of x f = Some (f s).
Proof. intros (s & -> & Hs). exists s. split; [reflexivity|]. now destruct s. Qed.

(** X12: a filter parameter that names no column of the listed resource
    makes the listing answer 500: [role] anywhere but on users, [sportId]
    and [universityId] anywhere but on fixtures, [gender] anywhere but on
    fixtures and users; so does a [role] or [gender] outside its enum. *)
Theorem misplaced_filter_is_an_error env m req w :
  ((given (role (query req)) /\ m <> User) \/
   (given (sportId (query req)) /\ m <> Fixture) \/
   (given (universityId (query req)) /\ m <> Fixture) \/
   (given (gender (query req)) /\ m <> Fixture /\ m <> User) \/
   (exists s, role (query req) = Some s /\ s <> "" /\ ~ In s Role) \/
   (exists s, gender (query req) = Some s /\ s <> "" /\ ~ In s Gender)) ->
  exists msg, route env m List req w = (error_json 500 msg, w).
Proof.
  intros H. apply list_refused. intros fields. apply refused_where.
  assert (Hnot : forall s members, ~ In s members -> existsb (String.eqb s) members = false).
  { intros s members Hn. destruct (existsb _ _) eqn:E; [|reflexivity].
    apply existsb_exists in E as (x & Hx & Heq). apply String.eqb_eq in Heq. now subst. }
  unfold buildQueryOptions. cbn [where_].
  destruct H as [[Hg Hm]|[[Hg Hm]|[[Hg Hm]|[(Hg & Hm1 & Hm2)|[(s & Hs & Hne & Hout)|(s & Hs & Hne & Hout)]]]]].
  - destruct (entry_of_given _ VStr Hg) as (s & _ & He).
    apply (valid_where_entry m _ "role" (VStr s)).
    + rewrite !obj_get_set_if. cbn. now rewrite He.
    + now destruct m.
  - destruct (entry_of_given _ VStr Hg) as (s & _ & He).
    apply (valid_where_entry m _ "sportId" (VStr s)).
    + rewrite !obj_get_set_if. cbn. now rewrite He.
    + now destruct m.
  - destruct (entry_of_given _ (fun u => VObj [("universityId", VStr u)]) Hg)
      as (s & _ & He).
    apply (valid_where_entry m _ "sport" (VObj [("universityId", VStr s)])).
    + rewrite !obj_get_set_if. cbn. now rewrite He.
    + now destruct m.
  - destruct (entry_of_given _ VStr Hg) as (s & _ & He).
    apply (valid_where_entry m _ "gender" (VStr s)).
    + rewrite !obj_get_set_if. cbn. now rewrite He.
    + now destruct m.
  - apply (valid_where_entry m _ "role" (VStr s)).
    + rewrite !obj_get_set_if. cbn. rewrite Hs. now destruct s.
    + destruct m; try reflexivity.
      change (valid_where User (VObj [("role", VStr s)]))
        with (existsb (String.eqb s) Role && true).
      now rewrite (Hnot s Role Hout).
  - apply (valid_where_entry m _ "gender" (VStr s)).
    + rewrite !obj_get_set_if. cbn. rewrite Hs. now destruct s.
    + destruct m; try reflexivity.
      * change (valid_where Fixture (VObj [("gender", VStr s)]))
          with (existsb (String.eqb s) Gender && true).
        now rewrite (Hnot s Gender Hout).
      * change (valid_where User (VObj [("gender", VStr s)]))
          with (existsb (String.eqb s) Gender && true).
        now rewrite (Hnot s Gender Hout).
Qed.

Lemma misplaced_filter_is_an_error_witness :
  exists msg,
    route sample_env Sport List (request "" (by_university "id0") []) season
    = (error_json 500 msg, season).
Proof.
  apply (misplaced_filter_is_an_error sample_env Sport
           (request "" (by_university "id0") []) season).
  right. right. left. split; [|discriminate].
  exists "id0". split; [reflexivity|discriminate].
Defined.

(** ** The scores of a result *)

Lemma not_an_Int id now f :
  ftype f = TInt -> fkind f = KRequired ->
  create_cell id now f (VNum NaN) = None /\ update_cell now f (VNum NaN) = None.
Proof. unfold create_cell, update_cell. now intros -> ->. Qed.

Lemma create_needs_scores data id now t :
  arg data "homeScore" = VNum NaN \/ arg data "awayScore" = VNum NaN ->
  forall row t', create Result data id now t <> inr (row, t').
Proof.
  intros Hnan row t' Hc.
  destruct (created_in_table _ _ _ _ _ _ _ Hc) as (Hrow & _).
  pose proof (create_row_needs _ _ _ (fields Result) row Hrow) as Hneed.
  destruct Hnan as [Hn|Hn].
  - destruct (Hneed {| fname := "homeScore"; ftype := TInt; fkind := KRequired |}
                ltac:(cbn; tauto)) as [c Hcell].
    cbn [fname] in Hcell. rewrite Hn in Hcell. discriminate.
  - destruct (Hneed {| fname := "awayScore"; ftype := TInt; fkind := KRequired |}
                ltac:(cbn; tauto)) as [c Hcell].
    cbn [fname] in Hcell. rewrite Hn in Hcell. discriminate.
Qed.

Lemma update_needs_scores id data now t :
  arg data "homeScore" = VNum NaN \/ arg data "awayScore" = VNum NaN ->
  forall row t', update Result id data now t <> inr (row, t').
Proof.
  intros Hnan row t' Hu.
  destruct (updated_in_table _ _ _ _ _ _ _ Hu) as (patch & old & Hp & _).
  pose proof (update_patch_needs _ _ (fields Result) patch Hp) as Hneed.
  destruct Hnan as [Hn|Hn].
  - destruct (Hneed {| fname := "homeScore"; ftype := TInt; fkind := KRequired |}
                ltac:(cbn; tauto)) as [c Hcell].
    cbn [fname] in Hcell. rewrite Hn in Hcell. discriminate.
  - destruct (Hneed {| fname := "awayScore"; ftype := TInt; fkind := KRequired |}
                ltac:(cbn; tauto)) as [c Hcell].
    cbn [fname] in Hcell. rewrite Hn in Hcell. discriminate.
Qed.

(** X13: a result is neither created nor updated without both scores: when
    [homeScore] or [awayScore] is missing or does not start with a number,
    [parseInt] gives NaN, the write is refused, and the handler answers 500
    with the tables and the channel as before.  The update is thus not
    partial in the scores. *)
Theorem scores_are_required env req w :
  parseInt (prop_string req "homeScore") = NaN \/
  parseInt (prop_string req "awayScore") = NaN ->
  silent_failure w (create_result env req w).2 (create_result env req w).1 /\
  silent_failure w (update_result env req w).2 (update_result env req w).1.
Proof.
  intros Hnan. split.
  - unfold create_result.
    apply (answer_after_pure _ _ _ w (fun a => silent_failure w a.2 a.1));
      [apply image_url_cases|repeat split|]. intros imageUrl _.
    apply answer_after_pure; [apply scorers_cases|repeat split|]. intros hs _.
    apply answer_after_pure; [apply scorers_cases|repeat split|]. intros aws _.
    apply answer_of_write; [repeat split| |apply create_fails_in_place].
    intros v w1 Hv. exfalso.
    match type of Hv with
    | prisma_create env Result ?d ?i ?s w = _ =>
        destruct (prisma_create_cases env Result d i s w)
          as [[e He]|(sel & row & t' & _ & Hc & _)]; [congruence|];
        apply (create_needs_scores d _ _ _) in Hc; [exact Hc|]
    end.
    cbn. destruct Hnan as [->| ->]; auto.
  - unfold update_result.
    apply (answer_after_pure _ _ _ w (fun a => silent_failure w a.2 a.1));
      [apply image_url_cases|repeat split|]. intros imageUrl _.
    apply answer_after_pure; [apply scorers_cases|repeat split|]. intros hs _.
    apply answer_after_pure; [apply scorers_cases|repeat split|]. intros aws _.
    apply answer_of_write; [repeat split| |apply update_fails_in_place].
    intros v w1 Hv. exfalso.
    match type of Hv with
    | prisma_update Result ?i ?d ?inc ?s w = _ =>
        destruct (prisma_update_cases Result i d inc s w)
          as [[e He]|(sel & row & t' & _ & Hc & _)]; [congruence|];
        apply (update_needs_scores _ d _ _) in Hc; [exact Hc|]
    end.
    cbn. destruct Hnan as [->| ->]; auto.
Qed.

Lemma scores_are_required_witness :
  let req := request "id3" no_options [("awayScore", "2"); ("status", "FINISHED")] in
  silent_failure season (create_result sample_env req season).2
    (create_result sample_env req season).1 /\
  silent_failure season (update_result sample_env req season).2
    (update_result sample_env req season).1.
Proof.
  apply (scores_are_required sample_env
           (request "id3" no_options [("awayScore", "2"); ("status", "FINISHED")])
           season).
  left. vm_compute. reflexivity.
Defined.

(** ** Unique emails *)

Lemma unchecked_unique m id row t f :
  check_constraints m id row t = None -> In f (unique_fields m) ->
  taken f id row (table m t) = false.
Proof.
  unfold check_constraints, unique_violation. intros Hc Hin.
  destruct (List.find _ (unique_fields m)) eqn:Hfind; [discriminate|].
  exact (find_none _ _ Hfind f Hin).
Qed.

Lemma no_duplicates_written m' id row t m f :
  check_constraints m' id row t = None -> In f (unique_fields m) ->
  no_duplicates m f t ->
  no_duplicates m f (set_table m' (<[id := row]> (table m' t)) t).
Proof.
  intros Hc Hin P. destruct (decide (m' = m)) as [->|Hm].
  - pose proof (unchecked_unique m id row t f Hc Hin) as Hfree.
    intros i j ri rj v. rewrite table_set_table.
    destruct (decide (i = id)) as [->|Hi], (decide (j = id)) as [->|Hj]; [auto|..].
    + rewrite lookup_insert_eq, lookup_insert_ne by congruence.
      intros [= <-] Hrj Hf Hfj. exfalso.
      apply (not_taken f id row (table m t) j rj); congruence.
    + rewrite lookup_insert_eq, lookup_insert_ne by congruence.
      intros Hri [= <-] Hfi Hf. exfalso.
      apply (not_taken f id row (table m t) i ri); congruence.
    + rewrite !lookup_insert_ne by congruence. apply P.
  - intros i j ri rj v. rewrite (table_set_table_ne m' m) by exact Hm. apply P.
Qed.

Lemma incoming_of m :
  incoming m = match m with
               | University => [(Sport, "universityId"); (User, "universityId")]
               | Sport => [(Fixture, "sportId")]
               | Fixture => [(Result, "fixtureId")]
               | _ => []
               end.
Proof. now destruct m. Qed.

(** The tables after the SetNull pass of a delete. *)
Lemma after_set_null m id t :
  foldr (set_null id) t (incoming m)
  = match m with
    | University =>
        {| universities := universities t;
           sports := cleared id "universityId" <$> sports t;
           fixtures := fixtures t; results := results t;
           users := cleared id "universityId" <$> users t |}
    | _ => t
    end.
Proof. now destruct m. Qed.

Lemma cleared_keeps id fk (r : Row) k : k <> fk -> cleared id fk r !! k = r !! k.
Proof.
  intros Hk. unfold cleared. destruct (references id fk r); [|reflexivity].
  now rewrite lookup_insert_ne.
Qed.

Lemma emails_after_delete m id t row t' i (r' : Row) :
  delete m id t = inr (row, t') -> users t' !! i = Some r' ->
  exists r, users t !! i = Some r /\ r' !! "email" = r !! "email".
Proof.
  unfold delete. destruct (table m t !! id); [|discriminate].
  destruct (List.find _ _); [discriminate|]. intros [= _ <-].
  rewrite after_set_null. destruct m; cbn [set_table users table]; try (now eauto).
  - rewrite lookup_fmap. destruct (users t !! i) as [r|]; [|discriminate].
    intros [= <-]. exists r. split; [reflexivity|]. now apply cleared_keeps.
  - rewrite lookup_delete_Some. intros [_ H]. eauto.
Qed.

Lemma update_patch_cells now data (fs : list Field) (patch : Row) :
  NoDup (map fname fs) ->
  foldr (fun f acc =>
           match acc, update_cell now f (arg data (fname f)) with
           | Some r, Some (Some c) => Some (<[fname f := c]> r)
           | Some r, Some None => Some r
           | _, _ => None
           end) (Some ∅) fs = Some patch ->
  forall f c, In f fs -> update_cell now f (arg data (fname f)) = Some (Some c) ->
              patch !! fname f = Some c.
Proof.
  revert patch. induction fs as [|f0 fs IH]; intros patch Hnd Hp f c Hin Hc;
    [destruct Hin|].
  cbn [map] in Hnd. apply NoDup_cons in Hnd as [Hfresh Hnd].
  cbn [foldr] in Hp. destruct (foldr _ _ fs) as [r|] eqn:Hr; [|discriminate].
  destruct Hin as [->|Hin].
  - rewrite Hc in Hp. injection Hp as <-. apply lookup_insert_eq.
  - specialize (IH r Hnd eq_refl f c Hin Hc).
    assert (fname f0 <> fname f).
    { intros Heq. apply Hfresh. rewrite Heq. apply list_elem_of_In, in_map, Hin. }
    destruct (update_cell now f0 (arg data (fname f0))) as [[c0|]|];
      [|now injection Hp as <-|discriminate].
    injection Hp as <-. now rewrite lookup_insert_ne.
Qed.

(** The email of another user is refused, on create and on update. *)
Lemma email_is_taken t i (u : Row) e data :
  users t !! i = Some u -> u !! "email" = Some (SStr e) ->
  arg data "email" = VStr e ->
  (forall id now row t', create User data id now t <> inr (row, t')) /\
  (forall id now row t', id <> i -> update User id data now t <> inr (row, t')).
Proof.
  intros Hi Hu Hd.
  pose (f := {| fname := "email"; ftype := TString; fkind := KRequired |}).
  assert (Hin : In f (fields User)) by (cbn; tauto).
  split.
  - intros id now row t' Hc.
    destruct (created_in_table _ _ _ _ _ _ _ Hc) as (Hrow & Hfresh & Hcheck & _).
    pose proof (create_row_cells _ _ _ (fields User) row (field_names_differ User)
                  Hrow f Hin) as Hcell.
    cbn [fname f] in Hcell. rewrite Hd in Hcell.
    change (row !! "email" = Some (SStr e)) in Hcell.
    pose proof (unchecked_unique User id row t "email" Hcheck ltac:(cbn; tauto)) as Hfree.
    cbn [table] in Hfree.
    rewrite (is_taken "email" id row (users t) i u) in Hfree; [discriminate| | | |];
      cbn [table] in *; congruence.
  - intros id now row t' Hne Hc.
    destruct (updated_in_table _ _ _ _ _ _ _ Hc)
      as (patch & old & Hp & Hold & -> & Hcheck & _).
    pose proof (update_patch_cells _ _ (fields User) patch (field_names_differ User)
                  Hp f (SStr e) Hin) as Hcell.
    cbn [fname f] in Hcell. rewrite Hd in Hcell. specialize (Hcell eq_refl).
    pose proof (unchecked_unique User id _ t "email" Hcheck ltac:(cbn; tauto)) as Hfree.
    cbn [table] in Hfree.
    rewrite (is_taken "email" id _ (users t) i u) in Hfree; [discriminate| | | |];
      rewrite ?(lookup_union_Some_l _ _ _ _ Hcell); cbn [table] in *; congruence.
Qed.

(** X14: in every world the application reaches no two users have the same
    email; a request to create a user with the email of a stored user, or
    to give that email to another user, is answered 500 and changes
    nothing. *)
Theorem emails_stay_unique env w :
  reachable env w ->
  no_duplicates User "email" (tables w) /\
  forall req i (u : Row) e,
    users (tables w) !! i = Some u -> u !! "email" = Some (SStr e) ->
    req_body req !! "email" = Some e ->
    create_user env req w
      = (error_json 500 "An error occurred while creating the user", w) /\
    (params_id req <> i ->
     update_user req w
       = (error_json 500 "An error occurred while updating the user", w)).
Proof.
  intros Hreach. split.
  - induction Hreach as [|w m v req Hreach IH].
    + intros i j ri rj x Hi. cbn in Hi. now rewrite lookup_empty in Hi.
    + apply serve_preserves; [| | |exact IH].
      * intros m' data id now t row t' P Hc.
        destruct (created_in_table _ _ _ _ _ _ _ Hc) as (_ & _ & Hcheck & ->).
        apply no_duplicates_written; [exact Hcheck|cbn; tauto|exact P].
      * intros m' id data now t row t' P Hc.
        destruct (updated_in_table _ _ _ _ _ _ _ Hc)
          as (patch & old & _ & _ & _ & Hcheck & ->).
        apply no_duplicates_written; [exact Hcheck|cbn; tauto|exact P].
      * intros m' id t row t' P Hd i j ri rj x Hi Hj Hxi Hxj.
        destruct (emails_after_delete _ _ _ _ _ _ _ Hd Hi) as (ri0 & Hi0 & Hei).
        destruct (emails_after_delete _ _ _ _ _ _ _ Hd Hj) as (rj0 & Hj0 & Hej).
        apply (P i j ri0 rj0 x); [exact Hi0|exact Hj0|congruence|congruence].
  - intros req i u e Hi Hu Hreq.
    assert (Hd : forall data, arg data "email" = prop req "email" ->
                              arg data "email" = VStr e).
    { intros data ->. unfold prop. now rewrite Hreq. }
    split.
    + unfold create_user.
      apply (answer_after_pure _ _ _ w (fun a => a = (_, w))).
      { destruct (hashed_cases env req w) as [[_ ->]|(p & _ & ->)]; eauto. }
      { reflexivity. }
      intros hashedPassword _.
      apply answer_of_write; [reflexivity| |apply create_fails_in_place].
      intros v w1 Hv. exfalso.
      match type of Hv with
      | prisma_create env User ?d ?inc ?s w = _ =>
          destruct (prisma_create_cases env User d inc s w)
            as [[err He]|(sel & row & t' & _ & Hc & _)]; [congruence|];
          exact (proj1 (email_is_taken (tables w) i u e d Hi Hu (Hd d eq_refl))
                   _ _ _ _ Hc)
      end.
    + intros Hne. unfold update_user.
      apply (answer_of_write _ _ _ w (fun a => a = (_, w)));
        [reflexivity| |apply update_fails_in_place].
      intros v w1 Hv. exfalso.
      match type of Hv with
      | prisma_update User ?id ?d ?inc ?s w = _ =>
          destruct (prisma_update_cases User id d inc s w)
            as [[err He]|(sel & row & t' & _ & Hc & _)]; [congruence|];
          exact (proj2 (email_is_taken (tables w) i u e d Hi Hu (Hd d eq_refl))
                   _ _ _ _ Hne Hc)
      end.
Qed.

Lemma enrolled_is_reachable : reachable sample_env enrolled.
Proof. apply reach_serve, season_is_reachable. Qed.

Lemma emails_stay_unique_witness :
  no_duplicates User "email" (tables enrolled) /\
  forall req i (u : Row) e,
    users (tables enrolled) !! i = Some u -> u !! "email" = Some (SStr e) ->
    req_body req !! "email" = Some e ->
    create_user sample_env req enrolled
      = (error_json 500 "An error occurred while creating the user", enrolled) /\
    (params_id req <> i ->
     update_user req enrolled
       = (error_json 500 "An error occurred while updating the user", enrolled)).
Proof. apply (emails_stay_unique sample_env enrolled). apply enrolled_is_reachable. Defined.

(** ** References *)

Lemma references_resolve_parts t :
  references_resolve t <->
  (forall i (r : Row) j, sports t !! i = Some r ->
     r !! "universityId" = Some (SStr j) -> is_Some (universities t !! j)) /\
  (forall i (r : Row) j, fixtures t !! i = Some r ->
     r !! "sportId" = Some (SStr j) -> is_Some (sports t !! j)) /\
  (forall i (r : Row) j, results t !! i = Some r ->
     r !! "fixtureId" = Some (SStr j) -> is_Some (fixtures t !! j)) /\
  (forall i (r : Row) j, users t !! i = Some r ->
     r !! "universityId" = Some (SStr j) -> is_Some (universities t !! j)).
Proof.
  split.
  - intros P. repeat split; intros i r j Hi Hj.
    + apply (P Sport "universityId" University i r j); cbn; auto.
    + apply (P Fixture "sportId" Sport i r j); cbn; auto.
    + apply (P Result "fixtureId" Fixture i r j); cbn; auto.
    + apply (P User "universityId" University i r j); cbn; auto.
  - intros (Hs & Hf & Hr & Hu) m fk target i r j Hin Hi Hj.
    destruct m; cbn in Hin; [contradiction| | | |];
      destruct Hin as [[= <- <-]|[]]; cbn [table] in *; eauto.
Qed.

Lemma not_dangling m id row t fk target j :
  check_constraints m id row t = None -> In (fk, target) (foreign_keys m) ->
  row !! fk = Some (SStr j) -> is_Some (table target t !! j).
Proof.
  unfold check_constraints. destruct (unique_violation _ _ _ _); [discriminate|].
  unfold fk_violation. destruct (List.find _ _) eqn:Hfind; [discriminate|].
  intros _ Hin Hj. pose proof (find_none _ _ Hfind _ Hin) as Hd.
  unfold dangling in Hd. cbn [fst snd] in Hd. rewrite Hj in Hd.
  apply bool_decide_eq_false in Hd. destruct (table target t !! j); [eauto|congruence].
Qed.

Lemma references_resolve_written m id row t :
  references_resolve t -> check_constraints m id row t = None ->
  references_resolve (set_table m (<[id := row]> (table m t)) t).
Proof.
  intros P Hc m1 fk target i r j Hin Hi Hj.
  assert (Hgrow : forall x k, is_Some (table x t !! k) ->
            is_Some (table x (set_table m (<[id := row]> (table m t)) t) !! k)).
  { intros x k Hk. destruct (decide (m = x)) as [->|Hx].
    - rewrite table_set_table, lookup_insert_is_Some. destruct (decide (id = k)); auto.
    - now rewrite table_set_table_ne. }
  apply Hgrow. destruct (decide (m = m1)) as [->|Hm].
  - rewrite table_set_table in Hi. destruct (decide (i = id)) as [->|Hne].
    + rewrite lookup_insert_eq in Hi. injection Hi as <-.
      now apply (not_dangling m1 id row t fk).
    + rewrite lookup_insert_ne in Hi by congruence. now apply (P m1 fk target i r j).
  - rewrite table_set_table_ne in Hi by exact Hm. now apply (P m1 fk target i r j).
Qed.

Lemma cleared_reference id fk (r : Row) j :
  cleared id fk r !! fk = Some (SStr j) -> r !! fk = Some (SStr j) /\ j <> id.
Proof.
  unfold cleared, references. case_bool_decide as Href.
  - rewrite lookup_insert_eq. discriminate.
  - intros H. split; [exact H|]. intros ->. contradiction.
Qed.

Lemma unrestricted id t ref i (r : Row) j :
  restricted id t ref = false -> required_column ref.1 ref.2 = true ->
  table ref.1 t !! i = Some r -> r !! ref.2 = Some (SStr j) -> j <> id.
Proof.
  unfold restricted. intros H Hreq Hi Hj. rewrite Hreq in H. cbn [andb] in H.
  apply negb_false_iff, bool_decide_eq_true in H. specialize (H i r Hi).
  unfold references in H. apply bool_decide_eq_false in H. congruence.
Qed.

Lemma references_resolve_deleted m id t row t' :
  references_resolve t -> delete m id t = inr (row, t') -> references_resolve t'.
Proof.
  intros P. unfold delete. destruct (table m t !! id); [|discriminate].
  destruct (List.find _ _) eqn:Hfind; [discriminate|]. intros [= _ <-].
  rewrite incoming_of in Hfind. rewrite after_set_null.
  apply references_resolve_parts in P as (Ps & Pf & Pr & Pu).
  apply references_resolve_parts.
  destruct m; cbn [set_table table universities sports fixtures results users].
  - repeat split; intros i r j Hi Hj.
    + rewrite lookup_fmap in Hi. destruct (sports t !! i) as [r0|] eqn:H0; [|discriminate].
      injection Hi as <-. apply cleared_reference in Hj as [Hj Hne].
      rewrite lookup_delete_ne by congruence. eauto.
    + rewrite lookup_fmap. destruct (Pf i r j Hi Hj) as [x ->]. eauto.
    + eauto.
    + rewrite lookup_fmap in Hi. destruct (users t !! i) as [r0|] eqn:H0; [|discriminate].
      injection Hi as <-. apply cleared_reference in Hj as [Hj Hne].
      rewrite lookup_delete_ne by congruence. eauto.
  - pose proof (find_none _ _ Hfind (Fixture, "sportId") ltac:(cbn; tauto)) as Hfree.
    repeat split; intros i r j Hi Hj; eauto.
    + apply lookup_delete_Some in Hi as [_ Hi]. eauto.
    + rewrite lookup_delete_ne; [eauto|].
      intros ->. now apply (unrestricted j t (Fixture, "sportId") i r j Hfree eq_refl Hi Hj).
  - pose proof (find_none _ _ Hfind (Result, "fixtureId") ltac:(cbn; tauto)) as Hfree.
    repeat split; intros i r j Hi Hj; eauto.
    + apply lookup_delete_Some in Hi as [_ Hi]. eauto.
    + rewrite lookup_delete_ne; [eauto|].
      intros ->. now apply (unrestricted j t (Result, "fixtureId") i r j Hfree eq_refl Hi Hj).
  - repeat split; intros i r j Hi Hj; eauto.
    apply lookup_delete_Some in Hi as [_ Hi]. eauto.
  - repeat split; intros i r j Hi Hj; eauto.
    apply lookup_delete_Some in Hi as [_ Hi]. eauto.
Qed.

(** X15: in every world the application reaches, every foreign key that is
    set names a stored row: the university of a sport or of a user, the
    sport of a fixture, the fixture of a result.  Creates and updates are
    checked against the tables; a delete is refused while a fixture or a
    result still points to the row, and clears the [universityId] of the
    sports and users of a deleted university. *)
Theorem references_always_resolve env w :
  reachable env w -> references_resolve (tables w).
Proof.
  intros Hreach. induction Hreach as [|w m v req Hreach IH].
  - intros m fk target i r j _ Hi. destruct m; cbn in Hi; now rewrite lookup_empty in Hi.
  - apply serve_preserves; [| | |exact IH].
    + intros m' data id now t row t' P Hc.
      destruct (created_in_table _ _ _ _ _ _ _ Hc) as (_ & _ & Hcheck & ->).
      now apply references_resolve_written.
    + intros m' id data now t row t' P Hc.
      destruct (updated_in_table _ _ _ _ _ _ _ Hc)
        as (patch & old & _ & _ & _ & Hcheck & ->).
      now apply references_resolve_written.
    + intros m' id t row t'. apply references_resolve_deleted.
Qed.

Lemma references_always_resolve_witness : references_resolve (tables enrolled).
Proof. apply (references_always_resolve sample_env enrolled). apply enrolled_is_reachable. Defined.

(** In the sample world the fixture cannot be deleted while it has its
    result, and deleting the university clears the sport and the user. *)
Example restrict_and_set_null :
  (serve sample_env Fixture Delete (get_by "id2") enrolled).1
    = error_json 500 "An error occurred while deleting the fixture" /\
  (exists s u,
     sports (tables (serve sample_env University Delete (get_by "id0") enrolled).2)
       !! "id1" = Some s /\ s !! "universityId" = Some SNull /\
     users (tables (serve sample_env University Delete (get_by "id0") enrolled).2)
       !! "id4" = Some u /\ u !! "universityId" = Some SNull).
Proof. vm_compute. split; [reflexivity|]. eexists _, _. repeat split. Qed.

(** ** The type of a sport *)

Lemma preserves_create_of (P : Tables -> Prop) env m data include select :
  (forall id now t row t', P t -> create m data id now t = inr (row, t') -> P t') ->
  preserves P (prisma_create env m data include select).
Proof.
  intros H. apply preserves_bind; [apply preserves_the_clock|]. intros now.
  apply preserves_shaped. eauto.
Qed.

Lemma preserves_update_of (P : Tables -> Prop) m id data include select :
  (forall now t row t', P t -> update m id data now t = inr (row, t') -> P t') ->
  preserves P (prisma_update m id data include select).
Proof.
  intros H. apply preserves_bind; [apply preserves_the_clock|]. intros now.
  apply preserves_shaped. eauto.
Qed.

Lemma individual_created m data id now t row t' :
  (m = Sport -> arg data "type" = VUndefined) ->
  individual t -> create m data id now t = inr (row, t') -> individual t'.
Proof.
  intros Hdata P Hc i s.
  destruct (created_in_table _ _ _ _ _ _ _ Hc) as (Hrow & _ & _ & ->).
  destruct (decide (m = Sport)) as [->|Hm].
  - change (sports (set_table Sport (<[id := row]> (table Sport t)) t))
      with (<[id := row]> (sports t)).
    destruct (decide (id = i)) as [->|Hi].
    + rewrite lookup_insert_eq. intros [= <-].
      pose proof (create_row_cells _ _ _ (fields Sport) row (field_names_differ Sport) Hrow
                    {| fname := "type"; ftype := TEnum SportType;
                       fkind := KDefault (SStr "INDIVIDUAL") |}
                    ltac:(cbn; tauto)) as Hcell.
      cbn [fname] in Hcell. rewrite Hcell, (Hdata eq_refl). reflexivity.
    + rewrite lookup_insert_ne by exact Hi. apply P.
  - change (sports ?x) with (table Sport x). rewrite table_set_table_ne by exact Hm. apply P.
Qed.

Lemma individual_updated m id data now t row t' :
  (m = Sport -> arg data "type" = VUndefined) ->
  individual t -> update m id data now t = inr (row, t') -> individual t'.
Proof.
  intros Hdata P Hu i s.
  destruct (decide (m = Sport)) as [->|Hm].
  - destruct (update_keeps_column _ _ _ _ _ _ _ "type" Hu (Hdata eq_refl))
      as (old & Hold & -> & Hkeep).
    { intros f Hin Hf. cbn in Hin.
      repeat (destruct Hin as [<-|Hin]; [cbn in Hf |- *; congruence|]). destruct Hin. }
    change (sports (set_table Sport (<[id := row]> (table Sport t)) t))
      with (<[id := row]> (sports t)).
    destruct (decide (id = i)) as [->|Hi].
    + rewrite lookup_insert_eq. intros [= <-]. rewrite Hkeep. now apply (P i).
    + rewrite lookup_insert_ne by exact Hi. apply P.
  - destruct (updated_in_table _ _ _ _ _ _ _ Hu) as (? & ? & _ & _ & _ & _ & ->).
    change (sports ?x) with (table Sport x). rewrite table_set_table_ne by exact Hm. apply P.
Qed.

Lemma individual_deleted m id t row t' :
  individual t -> delete m id t = inr (row, t') -> individual t'.
Proof.
  intros P. unfold delete. destruct (table m t !! id); [|discriminate].
  destruct (List.find _ _); [discriminate|]. intros [= _ <-] i s.
  rewrite after_set_null. destruct m; cbn [set_table sports table]; try (now apply P).
  - rewrite lookup_fmap. destruct (sports t !! i) as [r|] eqn:Hr; [|discriminate].
    intros [= <-]. rewrite cleared_keeps by discriminate. now apply (P i).
  - rewrite lookup_delete_Some. intros [_ H]. now apply (P i).
Qed.

(** X16: the later sport routes never write the [type] column.  In every
    world reached from the empty database through the routes, each stored
    sport has the schema's default type [INDIVIDUAL], whatever [type] the
    bodies of the requests carried. *)
Theorem sports_are_individual env w :
  reachable env w ->
  forall i (s : Row),
    sports (tables w) !! i = Some s -> s !! "type" = Some (SStr "INDIVIDUAL").
Proof.
  intros Hreach. change (individual (tables w)).
  induction Hreach as [|w m v req Hreach IH].
  - intros i s Hi. cbn in Hi. now rewrite lookup_empty in Hi.
  - assert (Hroute : individual (tables (route env m v req w).2)).
    { revert IH. destruct m, v; cbn [route];
        first [ apply preserves_list | apply preserves_fetch
              | apply preserves_delete_route; apply individual_deleted
              | apply preserves_try_catch;
                repeat first
                  [ apply preserves_ret | apply preserves_image_url
                  | apply preserves_scorers | apply preserves_hashed
                  | apply preserves_emit
                  | apply preserves_delete; apply individual_deleted
                  | apply preserves_create_of; intros ? ? ? ? ?;
                    apply individual_created; first [discriminate|reflexivity]
                  | apply preserves_update_of; intros ? ? ? ?;
                    apply individual_updated; first [discriminate|reflexivity]
                  | apply preserves_bind; [|intros ?] ] ]. }
    unfold serve. now destruct (route env m v req w).
Qed.

Lemma sports_are_individual_witness :
  exists s : Row,
    sports (tables enrolled) !! "id1" = Some s /\
    s !! "type" = Some (SStr "INDIVIDUAL").
Proof.
  destruct (sports (tables enrolled) !! "id1") as [s|] eqn:Hs; [|discriminate Hs].
  exists s. split; [reflexivity|].
  apply (sports_are_individual sample_env enrolled enrolled_is_reachable "id1" s Hs).
Defined.

(** ** The earlier revision of the sport routes *)

Lemma SportType_spec ty : existsb (String.eqb ty) SportType = true <-> In ty SportType.
Proof.
  rewrite existsb_exists. split.
  - intros (x & Hin & Heq). apply String.eqb_eq in Heq. now subst.
  - intros Hin. exists ty. split; [exact Hin|apply String.eqb_refl].
Qed.

(** X17: [POST /api/sports] of the earlier revision takes [name] and [type]
    from the body.  It answers 201 exactly when the body has a name, the type
    (INDIVIDUAL when the body has none) is a member of [SportType] and the new
    id is free; the sport is then stored with that type and no university.
    Otherwise it answers 500 and stores nothing. *)
Theorem earlier_sport_type_is_checked env req w :
  let id := uuid env (clock w) in
  let ty := default "INDIVIDUAL" (req_body req !! "type") in
  let accepted := is_Some (req_body req !! "name") /\ In ty SportType /\
                  sports (tables w) !! id = None in
  let out := EarlierSportRoutes.create_sport env req w in
  (~ accepted /\ out = (error_json 500 "An error occurred while creating the sport", w)) \/
  (accepted /\
   exists (s : Row) v,
     out.1 = json 201 v /\ replaced Sport id s (tables w) (tables out.2) /\
     s !! "name" = SStr <$> req_body req !! "name" /\
     s !! "type" = Some (SStr ty) /\ s !! "universityId" = Some SNull).
Proof.
  cbn zeta. unfold EarlierSportRoutes.create_sport, prisma_create, shaped, write,
    try_catch, bind, the_clock, ret, selection, create, create_row, prop, replaced.
  destruct (req_body req !! "name") as [n|] eqn:Hn,
           (req_body req !! "type") as [ty|] eqn:Hty;
    cbn [fields foldr fname ftype fkind arg obj_get String.eqb Ascii.eqb Bool.eqb
         create_cell default check_type id];
    try (left; split; [intros ([x Hx] & _); discriminate|];
         try destruct (existsb (String.eqb ty) SportType); reflexivity).
  - destruct (existsb (String.eqb ty) SportType) eqn:Hmember.
    + apply SportType_spec in Hmember.
      change (table Sport (tables w)) with (sports (tables w)).
      destruct (sports (tables w) !! uuid env (clock w)) eqn:Hfree.
      * left. split; [|reflexivity]. intros (_ & _ & [=]).
      * right. split; [eauto|]. eexists _, _. cbn [fst snd tables].
        repeat split.
    + left. split; [|reflexivity]. intros (_ & Hin & _).
      apply SportType_spec in Hin. congruence.
  - change (table Sport (tables w)) with (sports (tables w)).
    destruct (sports (tables w) !! uuid env (clock w)) eqn:Hfree.
    + left. split; [|reflexivity]. intros (_ & _ & [=]).
    + right. split; [split; [eauto|split; [cbn; tauto|reflexivity]]|].
      eexists _, _. cbn [fst snd tables]. repeat split.
Qed.

(** ** Searching and sorting *)

Lemma refused_orderBy env m q t :
  valid_orderBy m (orderBy q) = false ->
  findMany (order env) m q t = inl ValidationError.
Proof.
  intros H. unfold findMany.
  destruct (skip q), (take q); try reflexivity.
  now rewrite H, andb_false_r.
Qed.

Lemma truthy_given s : s <> "" -> truthy_string s = true.
Proof. now destruct s. Qed.

Lemma orderBy_given options fields f :
  sortBy options = Some f -> f <> "" -> f <> "__proto__" ->
  orderBy (buildQueryOptions options fields) = [(f, or_default (sortOrder options) "asc")].
Proof.
  intros Hf Hne Hproto. unfold buildQueryOptions. cbn [orderBy].
  rewrite Hf, (truthy_given f Hne). unfold assign.
  destruct (String.eqb_spec f "__proto__"); [contradiction|reflexivity].
Qed.

(** X18: a listing is answered 500 when it asks for a search among results
    (their searchable fields are two Int columns and an enum, on which
    [contains] is not defined), when [sortBy] names no column of the
    resource, and when [sortBy] comes with a [sortOrder] other than [asc]
    and [desc]. *)
Theorem bad_search_or_sort_is_an_error env m req w :
  ((given (search (query req)) /\ m = Result) \/
   (exists f, sortBy (query req) = Some f /\ f <> "" /\ f <> "__proto__" /\
              (find_field m f = None \/
               exists o, sortOrder (query req) = Some o /\ o <> "" /\
                         o <> "asc" /\ o <> "desc"))) ->
  exists msg, route env m List req w = (error_json 500 msg, w).
Proof.
  intros [[Hg ->]|(f & Hf & Hne & Hproto & Hbad)].
  - cbn [route]. eexists. apply list_route_refused, refused_where.
    destruct (entry_of_given _
                (fun s => VArr (map (contains_insensitive s)
                                  ["homeScore"; "awayScore"; "status"])) Hg)
      as (s & _ & He).
    eapply valid_where_entry; [rewrite where_OR; exact He|reflexivity].
  - apply list_refused. intros fields. apply refused_orderBy.
    rewrite (orderBy_given _ _ f Hf Hne Hproto). cbn [valid_orderBy forallb fst snd].
    destruct Hbad as [Hcol|(o & Ho & Hoe & Hasc & Hdesc)].
    + rewrite Hcol. now rewrite bool_decide_eq_false_2 by (intros [? [=]]).
    + unfold or_default. rewrite Ho, (truthy_given o Hoe).
      destruct (String.eqb_spec o "asc"); [contradiction|].
      destruct (String.eqb_spec o "desc"); [contradiction|].
      cbn [orb]. now rewrite !andb_false_r.
Qed.

Lemma bad_search_or_sort_is_an_error_witness :
  exists msg,
    route sample_env Result List (request "" (searching "3") []) season
    = (error_json 500 msg, season).
Proof.
  apply (bad_search_or_sort_is_an_error sample_env Result
           (request "" (searching "3") []) season).
  left. split; [|reflexivity]. exists "3". split; [reflexivity|discriminate].
Defined.

(** ** Pages *)



(** ** The date and the sport of a fixture *)

Lemma fixture_create_needs env req id now t :
  new_Date env req = VDate None \/
  (exists s, req_body req !! "sportId" = Some s /\ sports t !! s = None) ->
  forall row t', create Fixture (fixture_data env req) id now t <> inr (row, t').
Proof.
  intros Hbad row t' Hc.
  destruct (created_in_table _ _ _ _ _ _ _ Hc) as (Hrow & _ & Hcheck & _).
  destruct Hbad as [Hdate|(s & Hs & Hnone)].
  - destruct (create_row_needs _ _ _ (fields Fixture) row Hrow
                {| fname := "date"; ftype := TDateTime; fkind := KRequired |}
                ltac:(cbn; tauto)) as [c Hcell].
    unfold fixture_data in Hcell. cbn in Hcell. rewrite Hdate in Hcell. discriminate.
  - pose proof (create_row_cells _ _ _ (fields Fixture) row (field_names_differ Fixture)
                  Hrow {| fname := "sportId"; ftype := TString; fkind := KRequired |}
                  ltac:(cbn; tauto)) as Hcell.
    unfold fixture_data, prop in Hcell. cbn in Hcell. rewrite Hs in Hcell. cbn in Hcell.
    destruct (not_dangling Fixture id row t "sportId" Sport s Hcheck
                ltac:(cbn; tauto) Hcell) as [x Hx].
    cbn [table] in Hx. congruence.
Qed.

Lemma fixture_update_needs env req id now t :
  new_Date env req = VDate None \/
  (exists s, req_body req !! "sportId" = Some s /\ sports t !! s = None) ->
  forall row t', update Fixture id (fixture_data env req) now t <> inr (row, t').
Proof.
  intros Hbad row t' Hu.
  destruct (updated_in_table _ _ _ _ _ _ _ Hu)
    as (patch & old & Hp & _ & -> & Hcheck & _).
  destruct Hbad as [Hdate|(s & Hs & Hnone)].
  - destruct (update_patch_needs _ _ (fields Fixture) patch Hp
                {| fname := "date"; ftype := TDateTime; fkind := KRequired |}
                ltac:(cbn; tauto)) as [c Hcell].
    unfold fixture_data in Hcell. cbn in Hcell. rewrite Hdate in Hcell. discriminate.
  - assert (Hcell : patch !! "sportId" = Some (SStr s)).
    { apply (update_patch_cells _ _ (fields Fixture) patch (field_names_differ Fixture) Hp
               {| fname := "sportId"; ftype := TString; fkind := KRequired |});
        [cbn; tauto|].
      unfold fixture_data, prop. cbn. rewrite Hs. reflexivity. }
    destruct (not_dangling Fixture id (patch ∪ old) t "sportId" Sport s Hcheck
                ltac:(cbn; tauto)) as [x Hx].
    { now apply lookup_union_Some_l. }
    cbn [table] in Hx. congruence.
Qed.

(** X20: a fixture is neither created nor updated without a date that
    [new Date] can read, nor with a [sportId] that names no stored sport: the
    handler answers 500 and changes nothing.  The update is thus not partial
    in the date. *)
Theorem fixture_needs_date_and_sport env req w :
  new_Date env req = VDate None \/
  (exists s, req_body req !! "sportId" = Some s /\ sports (tables w) !! s = None) ->
  create_fixture env req w
    = (error_json 500 "An error occurred while creating the fixture", w) /\
  update_fixture env req w
    = (error_json 500 "An error occurred while updating the fixture", w).
Proof.
  intros Hbad. split.
  - unfold create_fixture.
    apply (answer_of_write _ _ _ w
             (fun a => a = (error_json 500 "An error occurred while creating the fixture",
                            w)));
      [reflexivity| |apply create_fails_in_place].
    intros v w1 Hv. exfalso.
    destruct (prisma_create_cases env Fixture (fixture_data env req)
                (Some sport_with_university) None w)
      as [[e He]|(sel & row & t' & _ & Hc & _)]; [congruence|].
    now apply (fixture_create_needs env req _ _ _ Hbad) in Hc.
  - unfold update_fixture. cbn zeta.
    apply (answer_of_write _ _ _ w
             (fun a => a = (error_json 500 "An error occurred while updating the fixture",
                            w)));
      [reflexivity| |apply update_fails_in_place].
    intros v w1 Hv. exfalso.
    destruct (prisma_update_cases Fixture (params_id req) (fixture_data env req)
                (Some sport_with_university) None w)
      as [[e He]|(sel & row & t' & _ & Hc & _)]; [congruence|].
    now apply (fixture_update_needs env req _ _ _ Hbad) in Hc.
Qed.

Lemma fixture_needs_date_and_sport_witness :
  let req := request "id2" no_options [("venue", "North field")] in
  create_fixture sample_env req season
    = (error_json 500 "An error occurred while creating the fixture", season) /\
  update_fixture sample_env req season
    = (error_json 500 "An error occurred while updating the fixture", season).
Proof.
  apply (fixture_needs_date_and_sport sample_env
           (request "id2" no_options [("venue", "North field")]) season).
  left. reflexivity.
Defined.

(** ** Uploads and scorers come before the write *)

Lemma thrown_before {A} (c : M A) (k : A -> M Response) r w e :
  c w = (inl e, w) -> try_catch (bind c k) r w = (r, w).
Proof. intros H. unfold try_catch, bind. now rewrite H. Qed.

Lemma upload_refused env req init w path :
  file req = Some path -> upload env path = None ->
  image_url env req init w = (inl Failure, w).
Proof. intros Hf Hu. unfold image_url, uploaded, bind, throw. now rewrite Hf, Hu. Qed.

Lemma scorers_refused env req key dflt w s :
  req_body req !! key = Some s -> s <> "" -> JSON_parse env s = None ->
  scorers env req key dflt w = (inl Failure, w).
Proof.
  intros Hk Hs Hp. unfold scorers, throw. now rewrite Hk, (truthy_given s Hs), Hp.
Qed.

(** X21: the image is uploaded and the scorers are parsed before anything
    is written.  When the request has a file that the image store rejects,
    the create and update handlers of universities and results answer 500
    with the world as it was; so do those of results when [homeScorers] or
    [awayScorers] is a non-empty string that [JSON.parse] rejects.  No row
    is written and no event is sent. *)
Theorem nothing_is_written_after_a_failure env req w :
  let upload_fails := exists path, file req = Some path /\ upload env path = None in
  let scorers_fail :=
    exists key s, (key = "homeScorers" \/ key = "awayScorers") /\
                  req_body req !! key = Some s /\ s <> "" /\ JSON_parse env s = None in
  (upload_fails ->
   create_university env req w
     = (error_json 500 "An error occurred while creating the university", w) /\
   update_university env req w
     = (error_json 500 "An error occurred while updating the university", w)) /\
  (upload_fails \/ scorers_fail ->
   create_result env req w
     = (error_json 500 "An error occurred while creating the result", w) /\
   update_result env req w
     = (error_json 500 "An error occurred while updating the result", w)).
Proof.
  cbn zeta. split.
  - intros (path & Hf & Hu).
    split; eapply thrown_before, upload_refused; eassumption.
  - intros [(path & Hf & Hu)|(key & s & Hkey & Hk & Hs & Hp)].
    + split; eapply thrown_before, upload_refused; eassumption.
    + split.
      * unfold create_result.
        apply (answer_after_pure _ _ _ w
                 (fun a => a = (error_json 500 "An error occurred while creating the result",
                                w)));
          [apply image_url_cases|reflexivity|]. intros imageUrl _.
        destruct Hkey as [->| ->].
        -- eapply thrown_before, scorers_refused; eassumption.
        -- apply answer_after_pure; [apply scorers_cases|reflexivity|]. intros hs _.
           eapply thrown_before, scorers_refused; eassumption.
      * unfold update_result. cbn zeta.
        apply (answer_after_pure _ _ _ w
                 (fun a => a = (error_json 500 "An error occurred while updating the result",
                                w)));
          [apply image_url_cases|reflexivity|]. intros imageUrl _.
        destruct Hkey as [->| ->].
        -- eapply thrown_before, scorers_refused; eassumption.
        -- apply answer_after_pure; [apply scorers_cases|reflexivity|]. intros hs _.
           eapply thrown_before, scorers_refused; eassumption.
Qed.

Lemma nothing_is_written_after_a_failure_witness :
  let req := request "id3" no_options
               [("homeScore", "1"); ("awayScore", "2"); ("awayScorers", "Ann, Bea")] in
  create_result sample_env req season
    = (error_json 500 "An error occurred while creating the result", season) /\
  update_result sample_env req season
    = (error_json 500 "An error occurred while updating the result", season).
Proof.
  apply (nothing_is_written_after_a_failure sample_env
           (request "id3" no_options
              [("homeScore", "1"); ("awayScore", "2"); ("awayScorers", "Ann, Bea")])
           season).
  right. exists "awayScorers", "Ann, Bea".
  split; [now right|]. split; [reflexivity|]. split; [discriminate|reflexivity].
Defined.

End Conduct.
